(** * Driver micro-sleep detection: the [DriverMonitor] state machine of camera.py

    The monitor's instants and ratios are Python floats.  They are modelled
    by exact numbers: rationals [Q] for the state machine (every operation
    there is a sum, a difference, a product, a quotient or a comparison),
    reals [R] for the aspect ratios, which need a square root.  Rounding is
    not modelled.

    The program reads the clock ([time.time()]) several times per frame and
    starts a beep thread as its only output.  Both are effects of a small
    state-and-exception monad over a [World]: the clock is an oracle giving
    the value of the n-th reading, the beeps are logged. *)

From Stdlib Require Import List Sorted Bool Arith ZArith QArith Qround Psatz Reals.
Import ListNotations.

Set Implicit Arguments.

(** ** Python exceptions and the result of a call *)

Inductive exn : Type :=
| TypeError
| ZeroDivisionError
| IndexError.

Inductive result (A : Type) : Type :=
| Ok (a : A)
| Raise (e : exn).

Arguments Ok {A} a.
Arguments Raise {A} e.

(** ** Math (lines 45-58), over the reals *)

Section Math.
Local Open Scope R_scope.

(** A landmark, as the main loop builds it: a pair of coordinates. *)
Definition point : Type := (R * R)%type.

(** [math.dist] on two-dimensional points. *)
Definition euclidean_dist (p1 p2 : point) : R :=
  sqrt ((fst p1 - fst p2) * (fst p1 - fst p2) + (snd p1 - snd p2) * (snd p1 - snd p2)).

(** [contour[i]]: an index past the end raises [IndexError]. *)
Definition getitem (contour : list point) (i : nat) : result point :=
  match nth_error contour i with
  | Some p => Ok p
  | None => Raise IndexError
  end.

Definition eye_aspect_ratio (eye : list point) : result R :=
  match getitem eye 1, getitem eye 5 with
  | Ok e1, Ok e5 =>
    let A := euclidean_dist e1 e5 in
    match getitem eye 2, getitem eye 4 with
    | Ok e2, Ok e4 =>
      let B := euclidean_dist e2 e4 in
      match getitem eye 0, getitem eye 3 with
      | Ok e0, Ok e3 =>
        let C := euclidean_dist e0 e3 in
        Ok (if Req_dec_T C 0 then 0 else (A + B) / (2 * C))
      | Raise e, _ | _, Raise e => Raise e
      end
    | Raise e, _ | _, Raise e => Raise e
    end
  | Raise e, _ | _, Raise e => Raise e
  end.

Definition mouth_aspect_ratio (mouth : list point) : result R :=
  match getitem mouth 1, getitem mouth 5 with
  | Ok m1, Ok m5 =>
    let A := euclidean_dist m1 m5 in
    match getitem mouth 2, getitem mouth 4 with
    | Ok m2, Ok m4 =>
      let B := euclidean_dist m2 m4 in
      match getitem mouth 0, getitem mouth 3 with
      | Ok m0, Ok m3 =>
        let C := euclidean_dist m0 m3 in
        Ok (if Req_dec_T C 0 then 0 else (A + B) / (2 * C))
      | Raise e, _ | _, Raise e => Raise e
      end
    | Raise e, _ | _, Raise e => Raise e
    end
  | Raise e, _ | _, Raise e => Raise e
  end.

End Math.

(** ** Constants (lines 13-20) *)

Local Open Scope Q_scope.

Definition MAR_THRESHOLD : Q := 0.6.
Definition MICROSLEEP_TIME : Q := 2.0.
Definition BLINK_WINDOW : Q := 60.
Definition BLINK_RATE_THRESHOLD : nat := 20.
Definition STATE_HOLD_TIME : Q := 1.0.
Definition CALIBRATION_TIME : Q := 5.0.
Definition FACE_LOST_TIME : Q := 2.0.
Definition ALARM_COOLDOWN : Q := 1.0.

(** Float comparisons [x < y] and [x >= y], [x > y]. *)
Definition Qltb (x y : Q) : bool := negb (Qle_bool y x).
Definition Qgeb (x y : Q) : bool := Qle_bool y x.
Definition Qgtb (x y : Q) : bool := negb (Qle_bool x y).

(** ** The monitor object (lines 27-42) *)

Inductive MonitorState : Type :=
| CALIBRATING
| NORMAL
| DROWSY
| DANGER.

Definition state_eqb (a b : MonitorState) : bool :=
  match a, b with
  | CALIBRATING, CALIBRATING | NORMAL, NORMAL
  | DROWSY, DROWSY | DANGER, DANGER => true
  | _, _ => false
  end.

(** The attributes of [self]; [None] is Python's [None]. *)
Record DriverMonitor : Type := mkMonitor {
  blink_timestamps : list Q;       (* deque, oldest at the head *)
  eyes_closed_prev : bool;
  eye_close_start : option Q;
  face_lost_start : option Q;
  state : MonitorState;
  state_change_time : Q;
  ear_threshold : option Q;
  calibration_values : list Q;
  calibration_start : Q;
  last_alarm_time : Q
}.

Definition set_blink_timestamps (v : list Q) (m : DriverMonitor) : DriverMonitor :=
  mkMonitor v (eyes_closed_prev m) (eye_close_start m) (face_lost_start m)
    (state m) (state_change_time m) (ear_threshold m) (calibration_values m)
    (calibration_start m) (last_alarm_time m).

Definition set_eyes_closed_prev (v : bool) (m : DriverMonitor) : DriverMonitor :=
  mkMonitor (blink_timestamps m) v (eye_close_start m) (face_lost_start m)
    (state m) (state_change_time m) (ear_threshold m) (calibration_values m)
    (calibration_start m) (last_alarm_time m).

Definition set_eye_close_start (v : option Q) (m : DriverMonitor) : DriverMonitor :=
  mkMonitor (blink_timestamps m) (eyes_closed_prev m) v (face_lost_start m)
    (state m) (state_change_time m) (ear_threshold m) (calibration_values m)
    (calibration_start m) (last_alarm_time m).

Definition set_face_lost_start (v : option Q) (m : DriverMonitor) : DriverMonitor :=
  mkMonitor (blink_timestamps m) (eyes_closed_prev m) (eye_close_start m) v
    (state m) (state_change_time m) (ear_threshold m) (calibration_values m)
    (calibration_start m) (last_alarm_time m).

Definition set_state (v : MonitorState) (m : DriverMonitor) : DriverMonitor :=
  mkMonitor (blink_timestamps m) (eyes_closed_prev m) (eye_close_start m)
    (face_lost_start m) v (state_change_time m) (ear_threshold m)
    (calibration_values m) (calibration_start m) (last_alarm_time m).

Definition set_state_change_time (v : Q) (m : DriverMonitor) : DriverMonitor :=
  mkMonitor (blink_timestamps m) (eyes_closed_prev m) (eye_close_start m)
    (face_lost_start m) (state m) v (ear_threshold m) (calibration_values m)
    (calibration_start m) (last_alarm_time m).

Definition set_ear_threshold (v : option Q) (m : DriverMonitor) : DriverMonitor :=
  mkMonitor (blink_timestamps m) (eyes_closed_prev m) (eye_close_start m)
    (face_lost_start m) (state m) (state_change_time m) v (calibration_values m)
    (calibration_start m) (last_alarm_time m).

Definition set_calibration_values (v : list Q) (m : DriverMonitor) : DriverMonitor :=
  mkMonitor (blink_timestamps m) (eyes_closed_prev m) (eye_close_start m)
    (face_lost_start m) (state m) (state_change_time m) (ear_threshold m) v
    (calibration_start m) (last_alarm_time m).

Definition set_last_alarm_time (v : Q) (m : DriverMonitor) : DriverMonitor :=
  mkMonitor (blink_timestamps m) (eyes_closed_prev m) (eye_close_start m)
    (face_lost_start m) (state m) (state_change_time m) (ear_threshold m)
    (calibration_values m) (calibration_start m) v.

(** ** The world: clock oracle, beep log, the monitor *)

Record World : Type := mkWorld {
  clock : nat -> Q;      (* value of the n-th call of time.time() *)
  ticks : nat;           (* calls of time.time() made so far *)
  beeps : list Q;        (* beep threads started, oldest first, each with
                            the instant trigger_alarm read when it fired *)
  self : DriverMonitor
}.

Definition M (A : Type) : Type := World -> result (A * World).

Definition ret {A} (a : A) : M A := fun w => Ok (a, w).

Definition bind {A B} (c : M A) (k : A -> M B) : M B :=
  fun w => match c w with
           | Ok (a, w') => k a w'
           | Raise e => Raise e
           end.

Definition raise {A} (e : exn) : M A := fun _ => Raise e.

Notation "x <- c ;; k" := (bind c (fun x => k))
  (at level 61, c at next level, right associativity).
Notation "c ;; k" := (bind c (fun _ => k))
  (at level 61, right associativity).

Definition time_time : M Q :=
  fun w => Ok (clock w (ticks w), mkWorld (clock w) (S (ticks w)) (beeps w) (self w)).

Definition get_self : M DriverMonitor := fun w => Ok (self w, w).

Definition modify (f : DriverMonitor -> DriverMonitor) : M unit :=
  fun w => Ok (tt, mkWorld (clock w) (ticks w) (beeps w) (f (self w))).

(** [threading.Thread(target=... Beep ...).start()] *)
Definition start_beep (at_ : Q) : M unit :=
  fun w => Ok (tt, mkWorld (clock w) (ticks w) (beeps w ++ [at_]) (self w)).

(** [DriverMonitor()]: two clock readings. *)
Definition init : M unit :=
  t1 <- time_time ;;
  t2 <- time_time ;;
  modify (fun _ =>
    mkMonitor [] false None None CALIBRATING t1 None [] t2 0.0).

(** ** Calibration (lines 61-67) *)

(** [sum(values)]: starts from 0 and adds from the left. *)
Definition py_sum (values : list Q) : Q := fold_left Qplus values 0.

(** [x / n] for a length [n]. *)
Definition py_div_len (x : Q) (n : nat) : M Q :=
  match n with
  | O => raise ZeroDivisionError
  | S _ => ret (x / inject_Z (Z.of_nat n))
  end.

Definition calibrate (ear : Q) : M unit :=
  modify (fun m => set_calibration_values (calibration_values m ++ [ear]) m) ;;
  t <- time_time ;;
  m <- get_self ;;
  if Qgeb (t - calibration_start m) CALIBRATION_TIME then
    avg_ear <- py_div_len (py_sum (calibration_values m))
                          (length (calibration_values m)) ;;
    modify (set_ear_threshold (Some (0.7 * avg_ear))) ;;
    modify (set_state NORMAL) ;;
    t' <- time_time ;;
    modify (set_state_change_time t')
  else ret tt.

(** ** Alarm (lines 70-77) *)

Definition trigger_alarm : M unit :=
  now <- time_time ;;
  m <- get_self ;;
  if Qgtb (now - last_alarm_time m) ALARM_COOLDOWN then
    modify (set_last_alarm_time now) ;;
    start_beep now
  else ret tt.

(** ** Face lost (lines 80-86) *)

Definition handle_face_lost : M unit :=
  now <- time_time ;;
  m <- get_self ;;
  match face_lost_start m with
  | None => modify (set_face_lost_start (Some now))
  | Some since =>
    if Qgeb (now - since) FACE_LOST_TIME then
      modify (set_state DANGER) ;;
      trigger_alarm
    else ret tt
  end.

(** ** State update (lines 89-124) *)

(** [ear < self.ear_threshold]: comparing a float with [None] raises. *)
Definition lt_threshold (ear : Q) (threshold : option Q) : M bool :=
  match threshold with
  | Some thr => ret (Qltb ear thr)
  | None => raise TypeError
  end.

(** Blink and eye closure (lines 93-100), given the outcome of the test. *)
Definition blink_and_eye_closure (closed : bool) (now : Q) (m : DriverMonitor)
  : DriverMonitor :=
  if closed then
    if negb (eyes_closed_prev m) then
      set_eye_close_start (Some now)
        (set_eyes_closed_prev true
          (set_blink_timestamps (blink_timestamps m ++ [now]) m))
    else m
  else
    set_eye_close_start None (set_eyes_closed_prev false m).

(** The [while ... popleft()] loop (lines 103-104). *)
Fixpoint popleft_old (now : Q) (ts : list Q) : list Q :=
  match ts with
  | [] => []
  | t0 :: rest =>
    if Qgtb (now - t0) BLINK_WINDOW then popleft_old now rest else ts
  end.

Definition blink_rate_window (now : Q) (m : DriverMonitor) : DriverMonitor :=
  set_blink_timestamps (popleft_old now (blink_timestamps m)) m.

(** The test of line 109: [self.eye_close_start and (now - ...) >= ...].
    [None] and [0.0] are both false in a Python condition. *)
Definition microsleep_test (now : Q) (m : DriverMonitor) : bool :=
  match eye_close_start m with
  | None => false
  | Some since =>
    if Qeq_bool since 0 then false
    else Qgeb (now - since) MICROSLEEP_TIME
  end.

(** Line 115. *)
Definition candidate_state (blink_rate : nat) (mar : Q) : MonitorState :=
  if (BLINK_RATE_THRESHOLD <? blink_rate)%nat || Qgtb mar MAR_THRESHOLD
  then DROWSY else NORMAL.

(** Lines 117-122. *)
Definition hold_or_commit (new_state : MonitorState) (now : Q) (m : DriverMonitor)
  : DriverMonitor :=
  if negb (state_eqb new_state (state m)) then
    if Qgtb (now - state_change_time m) STATE_HOLD_TIME then
      set_state_change_time now (set_state new_state m)
    else m
  else set_state_change_time now m.

Definition update_state (ear mar : Q) : M nat :=
  now <- time_time ;;
  m <- get_self ;;
  closed <- lt_threshold ear (ear_threshold m) ;;
  modify (blink_and_eye_closure closed now) ;;
  modify (blink_rate_window now) ;;
  m <- get_self ;;
  let blink_rate := length (blink_timestamps m) in
  if microsleep_test now m then
    modify (set_state DANGER) ;;
    trigger_alarm ;;
    ret blink_rate
  else
    let new_state := candidate_state blink_rate mar in
    modify (hold_or_commit new_state now) ;;
    ret blink_rate.

(** ** Main loop (lines 145-167), one iteration *)

(** What the landmark detector and the ratio functions hand to the monitor
    for one frame: no face, or the eye and mouth ratios. *)
Inductive frame : Type :=
| NoFace
| Face (ear mar : Q).

Definition main_loop_body (f : frame) : M unit :=
  match f with
  | NoFace => handle_face_lost
  | Face ear mar =>
    modify (set_face_lost_start None) ;;
    m <- get_self ;;
    if state_eqb (state m) CALIBRATING then
      _ <- time_time ;;            (* [remaining], for the overlay *)
      calibrate ear
    else
      _ <- update_state ear mar ;;
      ret tt
  end.

Fixpoint main_loop (frames : list frame) : M unit :=
  match frames with
  | [] => ret tt
  | f :: rest => main_loop_body f ;; main_loop rest
  end.

(** The program from its start over the given clock: construct the monitor,
    then process the frames.  Before the constructor has run there is no
    monitor; [boot] holds a blank one, which [init] replaces whole. *)
Definition boot (clk : nat -> Q) : World :=
  mkWorld clk 0 [] (mkMonitor [] false None None CALIBRATING 0 None [] 0 0).

Definition program (frames : list frame) : M unit :=
  init ;; main_loop frames.

(** A clock given by its first readings (0 afterwards), for the examples. *)
Definition clock_of (readings : list Q) : nat -> Q :=
  fun n => nth n readings 0.

(** ** Vocabulary of the statements *)

(** The value the next call of [time.time()] returns. *)
Definition now_of (w : World) : Q := clock w (ticks w).

(** The world after one clock reading and nothing else. *)
Definition tick (w : World) : World :=
  mkWorld (clock w) (S (ticks w)) (beeps w) (self w).

Definition with_self (m : DriverMonitor) (w : World) : World :=
  mkWorld (clock w) (ticks w) (beeps w) m.

(** The monitor after the two tracker blocks of [update_state]
    (lines 93-104), where the emergency test reads it. *)
Definition trackers (closed : bool) (now : Q) (m : DriverMonitor) : DriverMonitor :=
  blink_rate_window now (blink_and_eye_closure closed now m).

(** Beeps in the order they were started: any later one comes more than
    the cooldown after any earlier one. *)
Definition spaced (l : list Q) : Prop :=
  forall (i j : nat) (a b : Q),
    (i < j)%nat -> nth_error l i = Some a -> nth_error l j = Some b ->
    ALARM_COOLDOWN < b - a.

(** The alarm state moves in one of two ways: not at all, or by one beep
    at an instant more than the cooldown after the last one. *)
Definition alarm_step (w w' : World) : Prop :=
  (beeps w' = beeps w /\
   last_alarm_time (self w') = last_alarm_time (self w)) \/
  (exists now : Q,
     ALARM_COOLDOWN < now - last_alarm_time (self w) /\
     beeps w' = beeps w ++ [now] /\
     last_alarm_time (self w') = now).

Definition alarm_inv (w : World) : Prop :=
  spaced (beeps w) /\
  Forall (fun a => a <= last_alarm_time (self w)) (beeps w).

(** While the state is CALIBRATING the threshold is unset. *)
Definition not_yet (w : World) : Prop :=
  state (self w) = CALIBRATING -> ear_threshold (self w) = None.

(** Frames with a face, from their ratios (eye, mouth). *)
Definition faces (samples : list (Q * Q)) : list frame :=
  map (fun s => Face (fst s) (snd s)) samples.

(** A calibrated monitor in mid-drive, its eyes closed since [since]:
    threshold 0.21, one blink recorded at [since]. *)
Definition eyes_closed_since (since : Q) : DriverMonitor :=
  mkMonitor [since] true (Some since) None NORMAL since (Some 0.21) [0.3] (-6) 0.0.

(** Frames handed to [update_state] one after the other, each with its
    eye and mouth ratio. *)
Fixpoint update_states (votes : list (Q * Q)) : M unit :=
  match votes with
  | [] => ret tt
  | v :: rest => _ <- update_state (fst v) (snd v) ;; update_states rest
  end.

(** A blink timestamp not older than the window at [now]: the negation of
    the loop test of line 103. *)
Definition in_window (now t : Q) : bool := negb (Qgtb (now - t) BLINK_WINDOW).

(** Timestamps in the order the spec's data model gives them: recorded in
    chronological order, none later than [now]. *)
Definition chronological (ts : list Q) (now : Q) : Prop :=
  StronglySorted Qle ts /\ Forall (fun t => t <= now) ts.

(** A clock that never runs backwards. *)
Definition monotone (clk : nat -> Q) : Prop :=
  forall i j : nat, (i <= j)%nat -> clk i <= clk j.

(** The arithmetic mean in the spec's words: the sum of the samples
    divided by their number.  Written independently of the code's
    [sum(...) / len(...)], for comparison with it. *)
Fixpoint total (samples : list Q) : Q :=
  match samples with
  | [] => 0
  | v :: rest => v + total rest
  end.

Definition arithmetic_mean (samples : list Q) : Q :=
  total samples / inject_Z (Z.of_nat (length samples)).

(** A clock that reads [start] first and advances by [step] at every
    reading. *)
Definition steady_clock (start step : Q) : nat -> Q :=
  fun n => start + inject_Z (Z.of_nat n) * step.

(** ** Landmarks to ratios (main loop, lines 151-159) *)

Section Landmarks.
Local Open Scope R_scope.

(** [int(v)] on a float: truncation toward zero. *)
Definition py_int (v : Q) : Z := Z.quot (Qnum v) (Zpos (Qden v)).

(** A normalised landmark of the detector; only [.x] and [.y] are read. *)
Record landmark : Type := mkLandmark { x : Q; y : Q }.

Definition LEFT_EYE : list nat := [33; 160; 158; 133; 153; 144]%nat.
Definition RIGHT_EYE : list nat := [362; 385; 387; 263; 373; 380]%nat.
Definition MOUTH : list nat := [61; 81; 13; 291; 311; 402]%nat.

(** [(int(face[i].x * w), int(face[i].y * h))] *)
Definition pixel (w h : Z) (l : landmark) : point :=
  (IZR (py_int (x l * inject_Z w)), IZR (py_int (y l * inject_Z h))).

(** [[pixel(face[i]) for i in indices]]: the first index past the end of
    [face] raises [IndexError]. *)
Fixpoint pixels (face : list landmark) (w h : Z) (indices : list nat)
  : result (list point) :=
  match indices with
  | [] => Ok []
  | i :: rest =>
    match nth_error face i with
    | None => Raise IndexError
    | Some l =>
      match pixels face w h rest with
      | Ok ps => Ok (pixel w h l :: ps)
      | Raise e => Raise e
      end
    end
  end.

(** Lines 153-159: the three contours, then [ear] as the mean of the two
    eye ratios, and [mar]. *)
Definition frame_ratios (face : list landmark) (w h : Z) : result (R * R) :=
  match pixels face w h LEFT_EYE with
  | Raise e => Raise e
  | Ok left_eye =>
    match pixels face w h RIGHT_EYE with
    | Raise e => Raise e
    | Ok right_eye =>
      match pixels face w h MOUTH with
      | Raise e => Raise e
      | Ok mouth =>
        match eye_aspect_ratio left_eye with
        | Raise e => Raise e
        | Ok l =>
          match eye_aspect_ratio right_eye with
          | Raise e => Raise e
          | Ok r =>
            match mouth_aspect_ratio mouth with
            | Raise e => Raise e
            | Ok mar => Ok ((l + r) / 2, mar)
            end
          end
        end
      end
    end
  end.

(** Uniform scaling about the origin, and translation. *)
Definition scale (k : R) (p : point) : point := (k * fst p, k * snd p).
Definition shift (d p : point) : point := (fst p + fst d, snd p + snd d).

(** The contour the list comprehension builds when every index is
    within the face: the pixels of the landmarks at the given indices. *)
Definition contour (face : list landmark) (w h : Z) (indices : list nat) : list point :=
  map (fun i => pixel w h (nth i face (mkLandmark 0 0))) indices.

(** A face of 478 landmarks for the examples: both eyes 30 pixels wide
    and 20 open, the mouth 30 wide and 30 open, in a 100 x 100 frame; the
    landmarks that no index list names all sit at the origin. *)
Definition sample_landmark (i : nat) : landmark :=
  if existsb (Nat.eqb i) [33; 362; 61]%nat then mkLandmark 0.1 0.5
  else if existsb (Nat.eqb i) [133; 263; 291]%nat then mkLandmark 0.4 0.5
  else if existsb (Nat.eqb i) [160; 385]%nat then mkLandmark 0.2 0.4
  else if existsb (Nat.eqb i) [158; 387]%nat then mkLandmark 0.3 0.4
  else if existsb (Nat.eqb i) [153; 373]%nat then mkLandmark 0.3 0.6
  else if existsb (Nat.eqb i) [144; 380]%nat then mkLandmark 0.2 0.6
  else if (i =? 81)%nat then mkLandmark 0.2 0.35
  else if (i =? 13)%nat then mkLandmark 0.3 0.35
  else if (i =? 311)%nat then mkLandmark 0.3 0.65
  else if (i =? 402)%nat then mkLandmark 0.2 0.65
  else mkLandmark 0 0.

Definition sample_face : list landmark := map sample_landmark (seq 0 478).

End Landmarks.

(** ** The countdown of the overlay (lines 162-163) *)

(** [remaining], from the start instant and the clock reading. *)
Definition remaining (calibration_start now : Q) : Z :=
  py_int (CALIBRATION_TIME - (now - calibration_start)).

(** [max(0, remaining)], the number shown. *)
Definition countdown (calibration_start now : Q) : Z :=
  Z.max 0 (remaining calibration_start now).

(** ** More vocabulary *)

(** A run of frames without a face. *)
Definition no_faces (n : nat) : list frame := repeat NoFace n.

(** Latch and episode start go together. *)
Definition latched (m : DriverMonitor) : Prop :=
  eyes_closed_prev m = true <-> eye_close_start m <> None.

(** The alarm bookkeeping: the last-fired instant is that of the last beep
    (0.0 before any), and no beep was started at a reading of 1.0 or less. *)
Definition alarm_book (w : World) : Prop :=
  last_alarm_time (self w) = last (beeps w) 0.0 /\
  Forall (fun b => ALARM_COOLDOWN < b) (beeps w).

(** * Properties *)

(** ** Comparisons *)

Lemma Qltb_true x y : Qltb x y = true <-> x < y.
Proof.
  unfold Qltb. rewrite negb_true_iff, <- not_true_iff_false, Qle_bool_iff.
  split; [apply Qnot_le_lt | apply Qlt_not_le].
Qed.

Lemma Qgtb_true x y : Qgtb x y = true <-> y < x.
Proof. apply Qltb_true. Qed.

Lemma Qgtb_false x y : Qgtb x y = false <-> x <= y.
Proof.
  unfold Qgtb. rewrite negb_false_iff. apply Qle_bool_iff.
Qed.

Lemma Qgeb_true x y : Qgeb x y = true <-> y <= x.
Proof. apply Qle_bool_iff. Qed.

Lemma Qgeb_false x y : Qgeb x y = false <-> x < y.
Proof.
  unfold Qgeb. rewrite <- not_true_iff_false, Qle_bool_iff.
  split; [apply Qnot_le_lt | apply Qlt_not_le].
Qed.

Lemma state_eqb_eq a b : state_eqb a b = true <-> a = b.
Proof. destruct a, b; simpl; split; congruence. Qed.

Lemma state_eqb_neq a b : state_eqb a b = false <-> a <> b.
Proof. destruct a, b; simpl; split; congruence. Qed.

(** ** Math *)

Section MathFacts.
Local Open Scope R_scope.

Lemma euclidean_dist_nonneg p q : 0 <= euclidean_dist p q.
Proof. apply sqrt_pos. Qed.

Lemma euclidean_dist_same p : euclidean_dist p p = 0.
Proof.
  unfold euclidean_dist.
  replace ((fst p - fst p) * (fst p - fst p) + (snd p - snd p) * (snd p - snd p))
    with 0 by ring.
  apply sqrt_0.
Qed.

Lemma euclidean_dist_zero p q : euclidean_dist p q = 0 -> p = q.
Proof.
  destruct p as [x1 y1], q as [x2 y2].
  unfold euclidean_dist; simpl. intros H.
  assert (Hx : 0 <= (x1 - x2) * (x1 - x2)) by (rewrite <- Rsqr_def; apply Rle_0_sqr).
  assert (Hy : 0 <= (y1 - y2) * (y1 - y2)) by (rewrite <- Rsqr_def; apply Rle_0_sqr).
  apply sqrt_eq_0 in H; [ | lra ].
  f_equal; nra.
Qed.

Lemma euclidean_dist_level x1 x2 y :
  euclidean_dist (x1, y) (x2, y) = Rabs (x2 - x1).
Proof.
  unfold euclidean_dist; simpl.
  replace ((x1 - x2) * (x1 - x2) + (y - y) * (y - y)) with ((x2 - x1)²)
    by (unfold Rsqr; ring).
  apply sqrt_Rsqr_abs.
Qed.

Lemma euclidean_dist_upright x y1 y2 :
  euclidean_dist (x, y1) (x, y2) = Rabs (y1 - y2).
Proof.
  unfold euclidean_dist; simpl.
  replace ((x - x) * (x - x) + (y1 - y2) * (y1 - y2)) with ((y1 - y2)²)
    by (unfold Rsqr; ring).
  apply sqrt_Rsqr_abs.
Qed.

Lemma ratio_nonneg A B C : 0 <= A -> 0 <= B -> 0 <= C -> C <> 0 ->
  0 <= (A + B) / (2 * C).
Proof.
  intros HA HB HC HC0.
  apply Rmult_le_pos; [ lra | ].
  apply Rlt_le, Rinv_0_lt_compat. lra.
Qed.

(** Both functions on a contour of six points, by computation. *)
Lemma aspect_ratio_eq (p0 p1 p2 p3 p4 p5 : point) :
  let contour := [p0; p1; p2; p3; p4; p5] in
  let A := euclidean_dist p1 p5 in
  let B := euclidean_dist p2 p4 in
  let C := euclidean_dist p0 p3 in
  eye_aspect_ratio contour = Ok (if Req_dec_T C 0 then 0 else (A + B) / (2 * C)) /\
  mouth_aspect_ratio contour = Ok (if Req_dec_T C 0 then 0 else (A + B) / (2 * C)).
Proof. split; reflexivity. Qed.

(** C9: on every six-point contour the eye and the mouth ratio return,
    without raising, the same non-negative number: 0 when the distance
    between points 0 and 3 is zero, and otherwise
    (|p1-p5| + |p2-p4|) / (2 |p0-p3|) for the Euclidean distance. *)
Theorem aspect_ratio_six_points (p0 p1 p2 p3 p4 p5 : point) :
  let contour := [p0; p1; p2; p3; p4; p5] in
  let A := euclidean_dist p1 p5 in
  let B := euclidean_dist p2 p4 in
  let C := euclidean_dist p0 p3 in
  exists r : R,
    eye_aspect_ratio contour = Ok r /\
    mouth_aspect_ratio contour = Ok r /\
    0 <= r /\
    (C = 0 -> r = 0) /\
    (C <> 0 -> r = (A + B) / (2 * C)).
Proof.
  intros contour A B C.
  destruct (aspect_ratio_eq p0 p1 p2 p3 p4 p5) as [He Hm].
  fold contour A B C in He, Hm.
  destruct (Req_dec_T C 0) as [HC | HC].
  - exists 0. repeat split; try assumption; try lra; intros; contradiction.
  - exists ((A + B) / (2 * C)). repeat split; try assumption.
    + apply ratio_nonneg; auto; apply euclidean_dist_nonneg.
    + intros; contradiction.
Qed.

(** The degenerate contour: points 0 and 3 coincide. *)
Example aspect_ratio_degenerate (p0 p1 p2 p4 p5 : point) :
  eye_aspect_ratio [p0; p1; p2; p0; p4; p5] = Ok 0 /\
  mouth_aspect_ratio [p0; p1; p2; p0; p4; p5] = Ok 0.
Proof.
  pose proof (aspect_ratio_eq p0 p1 p2 p0 p4 p5) as H; cbv zeta in H.
  destruct (Req_dec_T (euclidean_dist p0 p0) 0) as [_ | Hne].
  - exact H.
  - contradiction Hne. apply euclidean_dist_same.
Qed.

(** An eye 6 wide whose lids are 4 apart at both columns: ratio 8/12. *)
Lemma aspect_ratio_six_points_witness :
  exists r : R,
    eye_aspect_ratio [(0, 0); (2, 2); (4, 2); (6, 0); (4, -2); (2, -2)] = Ok r /\
    r = (4 + 4) / (2 * 6).
Proof.
  pose proof (aspect_ratio_six_points (0, 0) (2, 2) (4, 2) (6, 0) (4, -2) (2, -2))
    as H; cbv zeta in H.
  destruct H as (r & He & _ & _ & _ & Hr).
  rewrite (euclidean_dist_level 0 6 0), !euclidean_dist_upright in Hr.
  exists r. split; [ exact He | ].
  replace (6 - 0) with 6 in Hr by ring.
  replace (2 - -2) with 4 in Hr by ring.
  rewrite !Rabs_pos_eq in Hr by lra.
  apply Hr. lra.
Defined.

End MathFacts.

(** ** The methods as equations on worlds *)

Lemma trigger_alarm_eq w :
  trigger_alarm w =
  Ok (tt,
      if Qgtb (now_of w - last_alarm_time (self w)) ALARM_COOLDOWN
      then mkWorld (clock w) (S (ticks w)) (beeps w ++ [now_of w])
                   (set_last_alarm_time (now_of w) (self w))
      else tick w).
Proof.
  unfold trigger_alarm, bind, time_time, get_self, modify, start_beep, ret, now_of, tick.
  cbn [clock ticks beeps self].
  destruct (Qgtb _ _); reflexivity.
Qed.

Lemma handle_face_lost_eq w :
  handle_face_lost w =
  match face_lost_start (self w) with
  | None => Ok (tt, with_self (set_face_lost_start (Some (now_of w)) (self w)) (tick w))
  | Some since =>
    if Qgeb (now_of w - since) FACE_LOST_TIME
    then trigger_alarm (with_self (set_state DANGER (self w)) (tick w))
    else Ok (tt, tick w)
  end.
Proof.
  unfold handle_face_lost, bind, time_time, get_self, modify, ret, now_of, tick, with_self.
  cbn [clock ticks beeps self].
  destruct (face_lost_start (self w)); [ | reflexivity ].
  destruct (Qgeb _ _); reflexivity.
Qed.

Lemma calibrate_eq w ear :
  calibrate ear w =
  let vals := calibration_values (self w) ++ [ear] in
  let m1 := set_calibration_values vals (self w) in
  if Qgeb (now_of w - calibration_start (self w)) CALIBRATION_TIME
  then Ok (tt,
           mkWorld (clock w) (S (S (ticks w))) (beeps w)
             (set_state_change_time (clock w (S (ticks w)))
               (set_state NORMAL
                 (set_ear_threshold
                   (Some (0.7 * (py_sum vals / inject_Z (Z.of_nat (length vals)))))
                   m1))))
  else Ok (tt, with_self m1 (tick w)).
Proof.
  unfold calibrate, bind, time_time, get_self, modify, ret, now_of, tick, with_self.
  cbn [clock ticks beeps self set_calibration_values calibration_start calibration_values].
  destruct (Qgeb _ _); [ | reflexivity ].
  destruct (length (calibration_values (self w) ++ [ear])) eqn:Hlen.
  - rewrite length_app, Nat.add_1_r in Hlen. discriminate.
  - reflexivity.
Qed.

Lemma update_state_eq w ear mar thr :
  ear_threshold (self w) = Some thr ->
  update_state ear mar w =
  let now := now_of w in
  let m1 := trackers (Qltb ear thr) now (self w) in
  let blink_rate := length (blink_timestamps m1) in
  if microsleep_test now m1
  then match trigger_alarm (with_self (set_state DANGER m1) (tick w)) with
       | Ok (_, w') => Ok (blink_rate, w')
       | Raise e => Raise e
       end
  else Ok (blink_rate,
           with_self (hold_or_commit (candidate_state blink_rate mar) now m1) (tick w)).
Proof.
  intros Hthr.
  unfold update_state, bind, time_time, get_self, modify, ret, lt_threshold,
    now_of, tick, with_self, trackers.
  cbn [clock ticks beeps self]. rewrite Hthr. unfold ret.
  cbn [clock ticks beeps self].
  destruct (microsleep_test _ _); [ | reflexivity ].
  cbn [clock ticks beeps self].
  match goal with |- context [trigger_alarm ?x] => destruct (trigger_alarm x) as [[[] w']|e] end;
    reflexivity.
Qed.

Lemma update_state_unset w ear mar :
  ear_threshold (self w) = None -> update_state ear mar w = Raise TypeError.
Proof.
  intros Hthr.
  unfold update_state, bind, time_time, get_self, lt_threshold, raise.
  cbn [clock ticks beeps self]. rewrite Hthr. reflexivity.
Qed.

Lemma main_loop_body_eq w f :
  main_loop_body f w =
  match f with
  | NoFace => handle_face_lost w
  | Face ear mar =>
    let w1 := with_self (set_face_lost_start None (self w)) w in
    if state_eqb (state (self w)) CALIBRATING
    then calibrate ear (tick w1)
    else match update_state ear mar w1 with
         | Ok (_, w') => Ok (tt, w')
         | Raise e => Raise e
         end
  end.
Proof.
  destruct f as [ | ear mar ]; [ reflexivity | ].
  unfold main_loop_body, bind, time_time, get_self, modify, ret, tick, with_self.
  cbn [clock ticks beeps self set_face_lost_start state].
  destruct (state_eqb _ _); [ reflexivity | ].
  match goal with |- context [update_state ear mar ?x] =>
    destruct (update_state ear mar x) as [[n w']|e] end; reflexivity.
Qed.

Lemma init_eq w :
  init w =
  Ok (tt, mkWorld (clock w) (S (S (ticks w))) (beeps w)
            (mkMonitor [] false None None CALIBRATING (clock w (ticks w)) None []
               (clock w (S (ticks w))) 0.0)).
Proof. reflexivity. Qed.

(** ** The alarm gate *)

Lemma spaced_nil : spaced [].
Proof. intros i j a b _ Hi. destruct i; discriminate. Qed.

Lemma spaced_snoc l now :
  spaced l -> (forall a, In a l -> ALARM_COOLDOWN < now - a) -> spaced (l ++ [now]).
Proof.
  intros Hl Hnow i j a b Hij Hi Hj.
  assert (Hjlen : (j < length (l ++ [now]))%nat)
    by (apply nth_error_Some; congruence).
  rewrite length_app in Hjlen; simpl in Hjlen.
  destruct (Nat.eq_dec j (length l)) as [-> | Hne].
  - rewrite nth_error_app1 in Hi by assumption.
    rewrite nth_error_app2, Nat.sub_diag in Hj by apply Nat.le_refl.
    simpl in Hj. injection Hj as <-.
    apply Hnow. eapply nth_error_In; eassumption.
  - rewrite nth_error_app1 in Hi by lia.
    rewrite nth_error_app1 in Hj by lia.
    exact (Hl i j a b Hij Hi Hj).
Qed.

Lemma alarm_step_refl w w' :
  beeps w' = beeps w -> last_alarm_time (self w') = last_alarm_time (self w) ->
  alarm_step w w'.
Proof. intros; left; split; assumption. Qed.

Lemma alarm_step_inv w w' : alarm_inv w -> alarm_step w w' -> alarm_inv w'.
Proof.
  intros [Hsp Hle] [[Hb Hl] | (now & Hgap & Hb & Hl)].
  - unfold alarm_inv. rewrite Hb, Hl. split; assumption.
  - unfold alarm_inv. rewrite Hb, Hl. rewrite Forall_forall in Hle.
    split.
    + apply spaced_snoc; [ assumption | ].
      intros a Ha. specialize (Hle a Ha). unfold ALARM_COOLDOWN in *. lra.
    + apply Forall_app; split.
      * apply Forall_forall. intros a Ha. specialize (Hle a Ha).
        unfold ALARM_COOLDOWN in *. lra.
      * constructor; [ apply Qle_refl | constructor ].
Qed.

Lemma trigger_alarm_step w w' : trigger_alarm w = Ok (tt, w') -> alarm_step w w'.
Proof.
  rewrite trigger_alarm_eq. intros H; injection H as <-.
  destruct (Qgtb _ _) eqn:Hgap.
  - right. exists (now_of w). apply Qgtb_true in Hgap. repeat split; assumption.
  - apply alarm_step_refl; reflexivity.
Qed.

Lemma handle_face_lost_step w w' :
  handle_face_lost w = Ok (tt, w') -> alarm_step w w'.
Proof.
  rewrite handle_face_lost_eq.
  destruct (face_lost_start (self w)) as [since | ].
  - destruct (Qgeb _ _).
    + intros H. apply trigger_alarm_step in H.
      destruct H as [[Hb Hl] | (now & Hgap & Hb & Hl)]; [ left | right ]; eauto.
    + intros H; injection H as <-. apply alarm_step_refl; reflexivity.
  - intros H; injection H as <-. apply alarm_step_refl; reflexivity.
Qed.

Lemma calibrate_step w ear w' : calibrate ear w = Ok (tt, w') -> alarm_step w w'.
Proof.
  rewrite calibrate_eq. cbv zeta.
  destruct (Qgeb _ _); intros H; injection H as <-;
    apply alarm_step_refl; reflexivity.
Qed.

Lemma trackers_last_alarm closed now m :
  last_alarm_time (trackers closed now m) = last_alarm_time m.
Proof.
  unfold trackers, blink_rate_window, blink_and_eye_closure.
  destruct closed; [ destruct (negb _) | ]; reflexivity.
Qed.

Lemma hold_or_commit_last_alarm s now m :
  last_alarm_time (hold_or_commit s now m) = last_alarm_time m.
Proof.
  unfold hold_or_commit.
  destruct (negb _); [ destruct (Qgtb _ _) | ]; reflexivity.
Qed.

Lemma update_state_step w ear mar n w' :
  update_state ear mar w = Ok (n, w') -> alarm_step w w'.
Proof.
  destruct (ear_threshold (self w)) as [thr | ] eqn:Hthr.
  - rewrite (update_state_eq _ _ _ Hthr). cbv zeta.
    destruct (microsleep_test _ _).
    + destruct (trigger_alarm _) as [[[] w1] | e] eqn:Htr; [ | discriminate ].
      intros H; injection H as _ <-.
      apply trigger_alarm_step in Htr.
      destruct Htr as [[Hb Hl] | (now & Hgap & Hb & Hl)]; [ left | right ].
      * split; [ exact Hb | ]. rewrite Hl. apply trackers_last_alarm.
      * exists now. cbn [self with_self set_state last_alarm_time] in Hgap.
        rewrite trackers_last_alarm in Hgap. repeat split; assumption.
    + intros H; injection H as _ <-. apply alarm_step_refl; [ reflexivity | ].
      cbn [self with_self]. rewrite hold_or_commit_last_alarm.
      apply trackers_last_alarm.
  - rewrite (update_state_unset _ _ _ Hthr). discriminate.
Qed.

Lemma main_loop_body_step w f w' :
  main_loop_body f w = Ok (tt, w') -> alarm_step w w'.
Proof.
  rewrite main_loop_body_eq. destruct f as [ | ear mar ].
  - apply handle_face_lost_step.
  - cbv zeta. destruct (state_eqb _ _).
    + intros H. apply calibrate_step in H. exact H.
    + destruct (update_state _ _ _) as [[n w1] | e] eqn:Hup; [ | discriminate ].
      intros H; injection H as <-. apply update_state_step in Hup. exact Hup.
Qed.

Lemma main_loop_cons f rest w :
  main_loop (f :: rest) w =
  match main_loop_body f w with
  | Ok (_, w1) => main_loop rest w1
  | Raise e => Raise e
  end.
Proof. reflexivity. Qed.

Lemma main_loop_inv frames : forall w w',
  alarm_inv w -> main_loop frames w = Ok (tt, w') -> alarm_inv w'.
Proof.
  induction frames as [ | f rest IH ]; intros w w' Hinv.
  - intros H; injection H as <-. exact Hinv.
  - rewrite main_loop_cons.
    destruct (main_loop_body f w) as [[[] w1] | e] eqn:Hf; [ | discriminate ].
    intros H. apply (IH w1); [ | exact H ].
    eapply alarm_step_inv; [ exact Hinv | ].
    apply main_loop_body_step with (f := f). exact Hf.
Qed.

Lemma program_eq frames clk :
  program frames (boot clk) =
  main_loop frames
    (mkWorld clk 2 []
       (mkMonitor [] false None None CALIBRATING (clk 0%nat) None [] (clk 1%nat) 0.0)).
Proof. reflexivity. Qed.

(** C3: the beeps of any run of the program are pairwise more than the
    1.0 s cooldown apart; a request within the cooldown of the last firing
    changes nothing (the clock reading apart) and a request past it fires
    and records its instant; so of two requests at most 1.0 s apart, the
    first of which is past the cooldown, exactly the first fires, and
    in any case at most one of the two does. *)
Theorem alarm_cooldown :
  (forall clk frames w,
      program frames (boot clk) = Ok (tt, w) -> spaced (beeps w)) /\
  (forall w,
      now_of w - last_alarm_time (self w) <= ALARM_COOLDOWN ->
      trigger_alarm w = Ok (tt, tick w)) /\
  (forall w,
      ALARM_COOLDOWN < now_of w - last_alarm_time (self w) ->
      trigger_alarm w =
      Ok (tt, mkWorld (clock w) (S (ticks w)) (beeps w ++ [now_of w])
                (set_last_alarm_time (now_of w) (self w)))) /\
  (forall w,
      let t1 := clock w (ticks w) in
      let t2 := clock w (S (ticks w)) in
      ALARM_COOLDOWN < t1 - last_alarm_time (self w) ->
      t2 - t1 <= ALARM_COOLDOWN ->
      (trigger_alarm ;; trigger_alarm) w =
      Ok (tt, mkWorld (clock w) (S (S (ticks w))) (beeps w ++ [t1])
                (set_last_alarm_time t1 (self w)))) /\
  (forall w,
      clock w (S (ticks w)) - clock w (ticks w) <= ALARM_COOLDOWN ->
      exists w',
        (trigger_alarm ;; trigger_alarm) w = Ok (tt, w') /\
        (length (beeps w') <= S (length (beeps w)))%nat).
Proof.
  assert (Hdrop : forall w,
      now_of w - last_alarm_time (self w) <= ALARM_COOLDOWN ->
      trigger_alarm w = Ok (tt, tick w)).
  { intros w H. rewrite trigger_alarm_eq.
    apply Qgtb_false in H. rewrite H. reflexivity. }
  assert (Hfire : forall w,
      ALARM_COOLDOWN < now_of w - last_alarm_time (self w) ->
      trigger_alarm w =
      Ok (tt, mkWorld (clock w) (S (ticks w)) (beeps w ++ [now_of w])
                (set_last_alarm_time (now_of w) (self w)))).
  { intros w H. rewrite trigger_alarm_eq.
    apply Qgtb_true in H. rewrite H. reflexivity. }
  assert (Hboth : forall w,
      ALARM_COOLDOWN < clock w (ticks w) - last_alarm_time (self w) ->
      clock w (S (ticks w)) - clock w (ticks w) <= ALARM_COOLDOWN ->
      (trigger_alarm ;; trigger_alarm) w =
      Ok (tt, mkWorld (clock w) (S (S (ticks w))) (beeps w ++ [clock w (ticks w)])
                (set_last_alarm_time (clock w (ticks w)) (self w)))).
  { intros w H1 H2. unfold bind.
    rewrite (Hfire w H1). rewrite Hdrop; [ reflexivity | ].
    unfold now_of; cbn [clock ticks self set_last_alarm_time last_alarm_time].
    exact H2. }
  split; [ | split; [ exact Hdrop | split; [ exact Hfire | split ] ] ].
  - intros clk frames w. rewrite program_eq. intros H.
    apply main_loop_inv in H; [ apply H | ].
    split; [ apply spaced_nil | constructor ].
  - intros w t1 t2. apply Hboth.
  - intros w H2.
    destruct (Qlt_le_dec ALARM_COOLDOWN
                (clock w (ticks w) - last_alarm_time (self w))) as [H1 | H1].
    + eexists. split; [ apply (Hboth w H1 H2) | ].
      cbn [beeps]. rewrite length_app, Nat.add_1_r. apply Nat.le_refl.
    + unfold bind. rewrite (Hdrop w H1). rewrite trigger_alarm_eq.
      eexists. split; [ reflexivity | ].
      destruct (Qgtb _ _); cbn [beeps tick].
      * rewrite length_app, Nat.add_1_r. apply Nat.le_refl.
      * apply Nat.le_succ_diag_r.
Qed.

(** Two danger conditions 0.4 s apart, the gate at rest: one beep. *)
Lemma alarm_cooldown_witness :
  let w := mkWorld (clock_of [10; 10.4]) 0 []
             (mkMonitor [] false None None DANGER 0 (Some 0.21) [] 0 0.0) in
  exists w', (trigger_alarm ;; trigger_alarm) w = Ok (tt, w') /\ beeps w' = [10].
Proof.
  intros w.
  assert (H1 : ALARM_COOLDOWN < clock w (ticks w) - last_alarm_time (self w))
    by (vm_compute; reflexivity).
  assert (H2 : clock w (S (ticks w)) - clock w (ticks w) <= ALARM_COOLDOWN)
    by (vm_compute; discriminate).
  eexists. split.
  - exact (proj1 (proj2 (proj2 (proj2 alarm_cooldown))) w H1 H2).
  - reflexivity.
Defined.

(** ** Which attributes the blocks touch *)

Lemma set_last_alarm_time_same m : set_last_alarm_time (last_alarm_time m) m = m.
Proof. destruct m; reflexivity. Qed.

Lemma trigger_alarm_shape w :
  exists (bs : list Q) (t : Q),
    trigger_alarm w =
    Ok (tt, mkWorld (clock w) (S (ticks w)) bs (set_last_alarm_time t (self w))).
Proof.
  rewrite trigger_alarm_eq. destruct (Qgtb _ _).
  - eexists; eexists; reflexivity.
  - exists (beeps w), (last_alarm_time (self w)).
    rewrite set_last_alarm_time_same. reflexivity.
Qed.

Ltac split_blocks :=
  unfold trackers, blink_rate_window, blink_and_eye_closure, hold_or_commit;
  repeat match goal with
         | |- context [if ?b then _ else _] => destruct b
         end;
  try reflexivity.

Lemma trackers_ear_threshold closed now m :
  ear_threshold (trackers closed now m) = ear_threshold m.
Proof. split_blocks. Qed.

Lemma trackers_state closed now m : state (trackers closed now m) = state m.
Proof. split_blocks. Qed.

Lemma trackers_state_change_time closed now m :
  state_change_time (trackers closed now m) = state_change_time m.
Proof. split_blocks. Qed.

Lemma trackers_face_lost_start closed now m :
  face_lost_start (trackers closed now m) = face_lost_start m.
Proof. split_blocks. Qed.

Lemma hold_or_commit_ear_threshold s now m :
  ear_threshold (hold_or_commit s now m) = ear_threshold m.
Proof. split_blocks. Qed.

Lemma hold_or_commit_face_lost_start s now m :
  face_lost_start (hold_or_commit s now m) = face_lost_start m.
Proof. split_blocks. Qed.

Lemma hold_or_commit_blink_timestamps s now m :
  blink_timestamps (hold_or_commit s now m) = blink_timestamps m.
Proof. split_blocks. Qed.

Lemma hold_or_commit_latch s now m :
  eyes_closed_prev (hold_or_commit s now m) = eyes_closed_prev m /\
  eye_close_start (hold_or_commit s now m) = eye_close_start m.
Proof. split_blocks; split; reflexivity. Qed.

Lemma candidate_state_cases n mar :
  candidate_state n mar = NORMAL \/ candidate_state n mar = DROWSY.
Proof. unfold candidate_state. destruct (_ || _); auto. Qed.

Lemma hold_or_commit_state s now m :
  state (hold_or_commit s now m) = state m \/ state (hold_or_commit s now m) = s.
Proof. split_blocks; auto. Qed.

(** ** The calibration guard along the main loop *)

(** Once the threshold is set and the state has left CALIBRATING, every
    frame is processed without an exception and both stay so. *)
Lemma update_state_calibrated w ear mar thr :
  ear_threshold (self w) = Some thr -> state (self w) <> CALIBRATING ->
  exists n w',
    update_state ear mar w = Ok (n, w') /\
    clock w' = clock w /\
    ear_threshold (self w') = Some thr /\ state (self w') <> CALIBRATING /\
    face_lost_start (self w') = face_lost_start (self w).
Proof.
  intros Hthr Hst. rewrite (update_state_eq _ _ _ Hthr). cbv zeta.
  destruct (microsleep_test _ _).
  - destruct (trigger_alarm_shape
                (with_self (set_state DANGER
                   (trackers (Qltb ear thr) (now_of w) (self w))) (tick w)))
      as (bs & t & ->).
    eexists; eexists; split; [ reflexivity | ].
    cbn [self clock with_self tick set_last_alarm_time set_state ear_threshold
         state face_lost_start].
    rewrite trackers_ear_threshold, trackers_face_lost_start.
    repeat split; auto; discriminate.
  - eexists; eexists; split; [ reflexivity | ].
    cbn [self clock with_self tick].
    rewrite hold_or_commit_ear_threshold, trackers_ear_threshold,
      hold_or_commit_face_lost_start, trackers_face_lost_start.
    repeat split; auto.
    destruct (hold_or_commit_state
                (candidate_state
                   (length (blink_timestamps
                      (trackers (Qltb ear thr) (now_of w) (self w)))) mar)
                (now_of w) (trackers (Qltb ear thr) (now_of w) (self w)))
      as [-> | ->].
    + rewrite trackers_state. exact Hst.
    + match goal with |- candidate_state ?n ?x <> _ =>
        destruct (candidate_state_cases n x) as [-> | ->] end; discriminate.
Qed.

Lemma handle_face_lost_calibrated w thr :
  ear_threshold (self w) = Some thr -> state (self w) <> CALIBRATING ->
  exists w',
    handle_face_lost w = Ok (tt, w') /\
    clock w' = clock w /\
    ear_threshold (self w') = Some thr /\ state (self w') <> CALIBRATING.
Proof.
  intros Hthr Hst. rewrite handle_face_lost_eq.
  destruct (face_lost_start (self w)) as [since | ].
  - destruct (Qgeb _ _).
    + destruct (trigger_alarm_shape
                  (with_self (set_state DANGER (self w)) (tick w)))
        as (bs & t & ->).
      eexists; split; [ reflexivity | ].
      cbn. repeat split; auto; discriminate.
    + eexists; split; [ reflexivity | ]. cbn. auto.
  - eexists; split; [ reflexivity | ]. cbn. auto.
Qed.

Lemma main_loop_body_calibrated w f thr :
  ear_threshold (self w) = Some thr -> state (self w) <> CALIBRATING ->
  exists w',
    main_loop_body f w = Ok (tt, w') /\
    clock w' = clock w /\
    ear_threshold (self w') = Some thr /\ state (self w') <> CALIBRATING.
Proof.
  intros Hthr Hst. rewrite main_loop_body_eq. destruct f as [ | ear mar ].
  - apply handle_face_lost_calibrated; assumption.
  - cbv zeta. apply state_eqb_neq in Hst. rewrite Hst.
    apply state_eqb_neq in Hst.
    destruct (update_state_calibrated
                (with_self (set_face_lost_start None (self w)) w) ear mar
                (thr := thr))
      as (n & w' & -> & Hc & Ht & Hs & _); auto.
    exists w'. auto.
Qed.

Lemma main_loop_calibrated frames : forall w thr,
  ear_threshold (self w) = Some thr -> state (self w) <> CALIBRATING ->
  exists w',
    main_loop frames w = Ok (tt, w') /\
    clock w' = clock w /\
    ear_threshold (self w') = Some thr /\ state (self w') <> CALIBRATING.
Proof.
  induction frames as [ | f rest IH ]; intros w thr Hthr Hst.
  - exists w. auto.
  - rewrite main_loop_cons.
    destruct (main_loop_body_calibrated w f Hthr Hst)
      as (w1 & -> & Hc1 & Ht1 & Hs1).
    destruct (IH w1 thr Ht1 Hs1) as (w' & Hrun & Hc & Ht & Hs).
    exists w'. rewrite Hc, Hc1. auto.
Qed.

Lemma main_loop_app frames1 : forall frames2 w,
  main_loop (frames1 ++ frames2) w =
  match main_loop frames1 w with
  | Ok (_, w1) => main_loop frames2 w1
  | Raise e => Raise e
  end.
Proof.
  induction frames1 as [ | f rest IH ]; intros frames2 w.
  - reflexivity.
  - rewrite <- app_comm_cons, !main_loop_cons.
    destruct (main_loop_body f w) as [[[] w1] | e]; [ apply IH | reflexivity ].
Qed.

Lemma main_loop_body_not_yet w f w' :
  not_yet w -> main_loop_body f w = Ok (tt, w') -> not_yet w'.
Proof.
  unfold not_yet. intros Hw. rewrite main_loop_body_eq.
  destruct f as [ | ear mar ].
  - rewrite handle_face_lost_eq.
    destruct (face_lost_start (self w)) as [since | ].
    + destruct (Qgeb _ _).
      * destruct (trigger_alarm_shape
                    (with_self (set_state DANGER (self w)) (tick w)))
          as (bs & t & ->).
        intros H; injection H as <-. cbn. discriminate.
      * intros H; injection H as <-. exact Hw.
    + intros H; injection H as <-. exact Hw.
  - cbv zeta. destruct (state_eqb (state (self w)) CALIBRATING) eqn:Hst.
    + rewrite calibrate_eq. cbv zeta. apply state_eqb_eq in Hst.
      destruct (Qgeb _ _); intros H; injection H as <-; cbn.
      * discriminate.
      * intros _. exact (Hw Hst).
    + apply state_eqb_neq in Hst.
      destruct (ear_threshold (self w)) as [thr | ] eqn:Hthr.
      * destruct (update_state_calibrated
                    (with_self (set_face_lost_start None (self w)) w) ear mar
                    (thr := thr))
          as (n & w1 & -> & _ & _ & Hs & _); auto.
        intros H; injection H as <-. intros Hc. contradiction.
      * rewrite update_state_unset by exact Hthr. discriminate.
Qed.

Lemma main_loop_not_yet frames : forall w w',
  not_yet w -> main_loop frames w = Ok (tt, w') -> not_yet w'.
Proof.
  induction frames as [ | f rest IH ]; intros w w' Hw.
  - intros H; injection H as <-. exact Hw.
  - rewrite main_loop_cons.
    destruct (main_loop_body f w) as [[[] w1] | e] eqn:Hf; [ | discriminate ].
    apply IH. eapply main_loop_body_not_yet; eassumption.
Qed.

(** Samples fed while every clock reading is less than 5 s after the
    calibration start: all are collected, nothing else changes. *)
Lemma main_loop_still_calibrating samples : forall w,
  state (self w) = CALIBRATING ->
  (forall n, clock w n - calibration_start (self w) < CALIBRATION_TIME) ->
  exists w',
    main_loop (faces samples) w = Ok (tt, w') /\
    state (self w') = CALIBRATING /\
    ear_threshold (self w') = ear_threshold (self w) /\
    calibration_values (self w') = calibration_values (self w) ++ map fst samples.
Proof.
  induction samples as [ | [ear mar] rest IH ]; intros w Hst Hclk.
  - exists w. cbn. rewrite app_nil_r. auto.
  - unfold faces; cbn [map fst snd]; fold (faces rest).
    rewrite main_loop_cons, main_loop_body_eq. cbv zeta.
    apply state_eqb_eq in Hst. rewrite Hst. apply state_eqb_eq in Hst.
    rewrite calibrate_eq. cbv zeta.
    cbn [self tick with_self calibration_start set_face_lost_start
         calibration_values].
    match goal with |- context [Qgeb ?x ?y] =>
      assert (Hlt : Qgeb x y = false) end.
    { apply Qgeb_false. unfold now_of. cbn [clock tick with_self ticks]. apply Hclk. }
    rewrite Hlt.
    match goal with |- context [main_loop (faces rest) ?w1] =>
      destruct (IH w1) as (w' & Hrun & Hs' & Ht' & Hv') end.
    + exact Hst.
    + exact Hclk.
    + exists w'. split; [ exact Hrun | ]. split; [ exact Hs' | ].
      split; [ exact Ht' | ].
      rewrite Hv'. cbn. rewrite <- app_assoc. reflexivity.
Qed.

(** The code's [sum] is the sum: its left fold from 0 adds up to the
    same rational as the plain recursive sum. *)
Lemma fold_left_Qplus_total vals : forall acc,
  fold_left Qplus vals acc == acc + total vals.
Proof.
  induction vals as [ | v rest IH ]; intros acc.
  - cbn [fold_left total]. ring.
  - cbn [fold_left total]. rewrite IH. ring.
Qed.

Lemma py_sum_total vals : py_sum vals == total vals.
Proof. unfold py_sum. rewrite fold_left_Qplus_total. ring. Qed.

Lemma py_mean_arithmetic vals :
  py_sum vals / inject_Z (Z.of_nat (length vals)) == arithmetic_mean vals.
Proof. unfold arithmetic_mean. rewrite py_sum_total. reflexivity. Qed.

(** C4: a sample fed at least 5 s after the calibration start sets the
    threshold to a number equal to 0.7 times the arithmetic mean of all
    samples collected (the sum of the samples over their number), moves
    the state to NORMAL and resets the hold timer to the clock; a sample
    fed earlier is only collected.  Samples fed while less than 5 s have
    passed leave the threshold unset and the state CALIBRATING, and a
    threshold once set is the threshold after any further frames. *)
Theorem calibration_completion :
  (forall w ear,
      CALIBRATION_TIME <= now_of w - calibration_start (self w) ->
      let vals := calibration_values (self w) ++ [ear] in
      exists w' thr,
        calibrate ear w = Ok (tt, w') /\
        ear_threshold (self w') = Some thr /\
        thr == 0.7 * arithmetic_mean vals /\
        state (self w') = NORMAL /\
        state_change_time (self w') = clock w (S (ticks w)) /\
        calibration_values (self w') = vals) /\
  (forall w ear,
      now_of w - calibration_start (self w) < CALIBRATION_TIME ->
      exists w',
        calibrate ear w = Ok (tt, w') /\
        ear_threshold (self w') = ear_threshold (self w) /\
        state (self w') = state (self w) /\
        state_change_time (self w') = state_change_time (self w) /\
        calibration_values (self w') = calibration_values (self w) ++ [ear]) /\
  (forall clk samples,
      (forall n, clk n - clk 1%nat < CALIBRATION_TIME) ->
      exists w',
        program (faces samples) (boot clk) = Ok (tt, w') /\
        ear_threshold (self w') = None /\
        state (self w') = CALIBRATING /\
        calibration_values (self w') = map fst samples) /\
  (forall clk frames1 frames2 w1 thr,
      program frames1 (boot clk) = Ok (tt, w1) ->
      ear_threshold (self w1) = Some thr ->
      exists w2,
        program (frames1 ++ frames2) (boot clk) = Ok (tt, w2) /\
        ear_threshold (self w2) = Some thr).
Proof.
  split; [ | split; [ | split ] ].
  - intros w ear H vals. rewrite calibrate_eq. cbv zeta.
    apply Qgeb_true in H. rewrite H.
    eexists; eexists. split; [ reflexivity | ].
    cbn [self ear_threshold set_state_change_time set_state set_ear_threshold
         state state_change_time calibration_values set_calibration_values].
    split; [ reflexivity | ].
    split; [ fold vals; rewrite py_mean_arithmetic; reflexivity | ].
    repeat split.
  - intros w ear H. rewrite calibrate_eq. cbv zeta.
    apply Qgeb_false in H. rewrite H.
    eexists; split; [ reflexivity | ]. cbn. auto.
  - intros clk samples Hclk. rewrite program_eq.
    match goal with |- context [main_loop _ ?w0] =>
      destruct (main_loop_still_calibrating samples w0)
        as (w' & Hrun & Hs & Ht & Hv) end.
    + reflexivity.
    + exact Hclk.
    + exists w'. auto.
  - intros clk frames1 frames2 w1 thr. rewrite !program_eq.
    intros Hrun Hthr. rewrite main_loop_app, Hrun.
    assert (Hst : state (self w1) <> CALIBRATING).
    { intros Hc. apply main_loop_not_yet in Hrun.
      - rewrite (Hrun Hc) in Hthr. discriminate.
      - intros _. reflexivity. }
    destruct (main_loop_calibrated frames2 w1 Hthr Hst) as (w2 & -> & _ & Ht & _).
    exists w2. auto.
Qed.

(** Samples 0.2 and 0.4 collected, 0.3 fed 5.0 s after the start: the
    mean is 0.3 and the threshold 0.21. *)
Lemma calibration_completion_witness :
  let m := mkMonitor [] false None None CALIBRATING 100 None [0.2; 0.4] 100 0.0 in
  let w := mkWorld (clock_of [105; 105.01]) 0 [] m in
  exists w' thr,
    calibrate 0.3 w = Ok (tt, w') /\
    ear_threshold (self w') = Some thr /\
    thr == 0.21 /\
    state (self w') = NORMAL /\
    state_change_time (self w') = 105.01.
Proof.
  intros m w.
  assert (H : CALIBRATION_TIME <= now_of w - calibration_start (self w))
    by (vm_compute; discriminate).
  destruct (proj1 calibration_completion w 0.3 H)
    as (w' & thr & Hrun & Ht & Hmean & Hs & Hc & _).
  exists w', thr. split; [ exact Hrun | ]. split; [ exact Ht | ].
  split.
  - rewrite Hmean. vm_compute. reflexivity.
  - split; [ exact Hs | exact Hc ].
Defined.

(** Samples fed during 4 s: still calibrating. *)
Example calibration_not_before_five_seconds :
  let clk := clock_of [100; 100; 101; 101; 102.5; 102.5; 104; 104] in
  exists w,
    program (faces [(0.3, 0.3); (0.32, 0.3); (0.28, 0.3)]) (boot clk) = Ok (tt, w) /\
    ear_threshold (self w) = None /\ state (self w) = CALIBRATING /\
    calibration_values (self w) = [0.3; 0.32; 0.28].
Proof.
  intros clk. eexists. split; [ vm_compute; reflexivity | ].
  split; [ reflexivity | ]. split; reflexivity.
Qed.

(** ** The emergency test *)

Lemma microsleep_test_zero now m since :
  eye_close_start m = Some since -> since == 0 -> microsleep_test now m = false.
Proof.
  intros Hs Hz. unfold microsleep_test. rewrite Hs.
  apply Qeq_bool_iff in Hz. rewrite Hz. reflexivity.
Qed.

Lemma microsleep_test_true now m :
  microsleep_test now m = true <->
  exists since, eye_close_start m = Some since /\ ~ since == 0 /\
                MICROSLEEP_TIME <= now - since.
Proof.
  unfold microsleep_test. destruct (eye_close_start m) as [since | ].
  - destruct (Qeq_bool since 0) eqn:Hz.
    + apply Qeq_bool_iff in Hz. split; [ discriminate | ].
      intros (s & Hs & Hnz & _). injection Hs as <-. contradiction.
    + apply Qeq_bool_neq in Hz. rewrite Qgeb_true. split.
      * intros H. exists since. auto.
      * intros (s & Hs & _ & H). injection Hs as <-. exact H.
  - split; [ discriminate | ]. intros (s & Hs & _). discriminate.
Qed.

(** The override as the code has it: on a calibrated frame whose closure
    episode, after the tracker blocks, started at a non-zero instant at
    least 2.0 s ago, the state is DANGER, the hold timer is not consulted
    and the alarm is requested before the blink rate is returned. *)
Lemma microsleep_override w ear mar thr since :
  ear_threshold (self w) = Some thr ->
  let now := now_of w in
  let m1 := trackers (Qltb ear thr) now (self w) in
  eye_close_start m1 = Some since -> ~ since == 0 ->
  MICROSLEEP_TIME <= now - since ->
  exists w',
    trigger_alarm (with_self (set_state DANGER m1) (tick w)) = Ok (tt, w') /\
    update_state ear mar w = Ok (length (blink_timestamps m1), w') /\
    state (self w') = DANGER /\
    state_change_time (self w') = state_change_time (self w).
Proof.
  intros Hthr now m1 Hs Hnz Hdur.
  rewrite (update_state_eq _ _ _ Hthr). cbv zeta. fold now. fold m1.
  assert (Ht : microsleep_test now m1 = true)
    by (apply microsleep_test_true; exists since; auto).
  rewrite Ht.
  destruct (trigger_alarm_shape (with_self (set_state DANGER m1) (tick w)))
    as (bs & t & Htr).
  rewrite Htr. eexists; split; [ reflexivity | ].
  split; [ reflexivity | ]. cbn. split; [ reflexivity | ].
  apply trackers_state_change_time.
Qed.

(** C10: when the recorded closure start is 0.0, [update_state] never
    takes the microsleep branch, whatever the current instant: the test is
    false, the call goes through the hold logic, makes no alarm request
    (one clock reading, no beep) and cannot move the state to DANGER. *)
Theorem zero_start_blocks_microsleep w ear mar thr since :
  ear_threshold (self w) = Some thr ->
  eye_close_start (self w) = Some since -> since == 0 ->
  let now := now_of w in
  let m1 := trackers (Qltb ear thr) now (self w) in
  let blink_rate := length (blink_timestamps m1) in
  microsleep_test now m1 = false /\
  update_state ear mar w =
    Ok (blink_rate,
        with_self (hold_or_commit (candidate_state blink_rate mar) now m1) (tick w)) /\
  (forall n w',
      update_state ear mar w = Ok (n, w') ->
      beeps w' = beeps w /\ ticks w' = S (ticks w) /\
      last_alarm_time (self w') = last_alarm_time (self w) /\
      (state (self w') = DANGER -> state (self w) = DANGER)).
Proof.
  intros Hthr Hs Hz now m1 blink_rate.
  assert (Ht : microsleep_test now m1 = false).
  { unfold m1, trackers, blink_rate_window, blink_and_eye_closure.
    destruct (Qltb ear thr); [ destruct (negb (eyes_closed_prev (self w))) | ].
    - unfold microsleep_test. cbn.
      destruct (Qeq_bool now 0); [ reflexivity | ].
      apply Qgeb_false. unfold MICROSLEEP_TIME. lra.
    - apply microsleep_test_zero with (since := since); assumption.
    - reflexivity. }
  assert (Hrun : update_state ear mar w =
    Ok (blink_rate,
        with_self (hold_or_commit (candidate_state blink_rate mar) now m1) (tick w))).
  { rewrite (update_state_eq _ _ _ Hthr). cbv zeta. fold now. fold m1.
    rewrite Ht. reflexivity. }
  split; [ exact Ht | split; [ exact Hrun | ] ].
  intros n w'. rewrite Hrun. intros H; injection H as _ <-.
  cbn [beeps ticks self with_self tick].
  rewrite hold_or_commit_last_alarm. unfold m1.
  rewrite trackers_last_alarm. repeat split.
  destruct (hold_or_commit_state (candidate_state blink_rate mar) now
              (trackers (Qltb ear thr) now (self w))) as [-> | ->].
  - rewrite trackers_state. auto.
  - destruct (candidate_state_cases blink_rate mar) as [-> | ->]; discriminate.
Qed.

(** Eyes closed since instant 0, read again 100 s later. *)
Lemma zero_start_blocks_microsleep_witness :
  let w := mkWorld (clock_of [100]) 0 [] (eyes_closed_since 0) in
  microsleep_test 100 (trackers (Qltb 0.15 0.21) 100 (self w)) = false /\
  update_state 0.15 0.3 w =
    Ok (0%nat,
        mkWorld (clock_of [100]) 1 []
          (mkMonitor [] true (Some 0) None NORMAL 100 (Some 0.21) [0.3] (-6) 0.0)).
Proof.
  intros w.
  destruct (@zero_start_blocks_microsleep w 0.15 0.3 0.21 0
              eq_refl eq_refl (Qeq_refl 0)) as (Ht & Hrun & _).
  split; [ exact Ht | ].
  rewrite Hrun. vm_compute. reflexivity.
Defined.

(** The zero start along a run, under a clock that passes through 0.0:
    the closure episode begins at the reading 0.0 and has lasted 2.5 s,
    yet [update_state] leaves the state NORMAL and requests no alarm: it
    reads the clock once and starts no beep. *)
Example microsleep_missed_for_zero_start :
  let clk := clock_of [-6; -6; -1; -1; -1; 0; 2.5] in
  exists w1 w2,
    program [Face 0.3 0.3; Face 0.15 0.3] (boot clk) = Ok (tt, w1) /\
    ear_threshold (self w1) = Some 0.21 /\
    eye_close_start (self w1) = Some 0 /\
    MICROSLEEP_TIME <= now_of w1 - 0 /\
    update_state 0.15 0.3 w1 = Ok (1%nat, w2) /\
    eye_close_start (self w2) = Some 0 /\
    state (self w2) = NORMAL /\
    beeps w2 = [] /\ ticks w2 = S (ticks w1).
Proof.
  intros clk. eexists; eexists.
  split; [ vm_compute; reflexivity | ].
  repeat split; try (vm_compute; reflexivity).
  vm_compute. discriminate.
Qed.

(** The same drive with the closure starting at 0.5 instead: DANGER and
    one beep, on the frame 2.5 s later. *)
Example microsleep_caught_for_other_start :
  let clk := clock_of [-6; -6; -1; -1; -1; 0.5; 3; 3] in
  exists w,
    program [Face 0.3 0.3; Face 0.15 0.3; Face 0.15 0.3] (boot clk) = Ok (tt, w) /\
    state (self w) = DANGER /\ beeps w = [3].
Proof. intros clk. eexists. split; [ vm_compute; reflexivity | ]. split; reflexivity. Qed.

(** C2: the face is lost for 2.5 s before calibration has completed.
    [handle_face_lost] moves the state to DANGER while the threshold is
    still unset, and the next frame with a face compares its eye ratio
    with the unset threshold: [update_state] raises [TypeError]. *)
Theorem face_lost_while_calibrating :
  let clk := clock_of [100; 100; 101; 103.5; 103.5; 104] in
  (exists w,
      program [NoFace; NoFace] (boot clk) = Ok (tt, w) /\
      state (self w) = DANGER /\ ear_threshold (self w) = None) /\
  program [NoFace; NoFace; Face 0.3 0.3] (boot clk) = Raise TypeError.
Proof.
  intros clk. split.
  - eexists. split; [ vm_compute; reflexivity | ]. split; reflexivity.
  - vm_compute. reflexivity.
Qed.

(** ** Face loss *)

(** C6: a frame without a face starts a loss episode at its instant when
    none is active; when the active episode is at least 2.0 s old (2.0 s
    exactly included) the state becomes DANGER and the alarm is requested,
    whatever the hold timer says, and it beeps if the cooldown allows; a
    younger episode changes nothing.  A frame with a face clears the
    episode, so that a frame without a face right after it only starts a
    new episode. *)
Theorem face_loss_handling :
  (forall w,
      face_lost_start (self w) = None ->
      main_loop_body NoFace w =
      Ok (tt, with_self (set_face_lost_start (Some (now_of w)) (self w)) (tick w))) /\
  (forall w since,
      face_lost_start (self w) = Some since ->
      FACE_LOST_TIME <= now_of w - since ->
      exists w',
        main_loop_body NoFace w = Ok (tt, w') /\
        trigger_alarm (with_self (set_state DANGER (self w)) (tick w)) = Ok (tt, w') /\
        state (self w') = DANGER /\
        state_change_time (self w') = state_change_time (self w) /\
        face_lost_start (self w') = Some since /\
        (ALARM_COOLDOWN < clock w (S (ticks w)) - last_alarm_time (self w) ->
         beeps w' = beeps w ++ [clock w (S (ticks w))])) /\
  (forall w since,
      face_lost_start (self w) = Some since ->
      now_of w - since < FACE_LOST_TIME ->
      main_loop_body NoFace w = Ok (tt, tick w)) /\
  (forall w ear mar,
      state (self w) = CALIBRATING \/ ear_threshold (self w) <> None ->
      exists w1,
        main_loop_body (Face ear mar) w = Ok (tt, w1) /\
        face_lost_start (self w1) = None /\
        exists w2,
          main_loop_body NoFace w1 = Ok (tt, w2) /\
          face_lost_start (self w2) = Some (now_of w1) /\
          state (self w2) = state (self w1) /\
          beeps w2 = beeps w1).
Proof.
  assert (Hstart : forall w,
      face_lost_start (self w) = None ->
      main_loop_body NoFace w =
      Ok (tt, with_self (set_face_lost_start (Some (now_of w)) (self w)) (tick w))).
  { intros w H. rewrite main_loop_body_eq, handle_face_lost_eq, H. reflexivity. }
  split; [ exact Hstart | ]. split; [ | split ].
  - intros w since Hs Hdur.
    rewrite main_loop_body_eq, handle_face_lost_eq, Hs.
    apply Qgeb_true in Hdur. rewrite Hdur.
    rewrite trigger_alarm_eq.
    eexists; split; [ reflexivity | ]. split; [ reflexivity | ].
    unfold now_of. cbn [clock ticks beeps self with_self tick set_state last_alarm_time].
    destruct (Qgtb _ _) eqn:Hgap; cbn; repeat split; auto.
    intros H. apply Qgtb_true in H. congruence.
  - intros w since Hs Hdur.
    rewrite main_loop_body_eq, handle_face_lost_eq, Hs.
    apply Qgeb_false in Hdur. rewrite Hdur. reflexivity.
  - intros w ear mar Hguard.
    assert (Hface : exists w1,
      main_loop_body (Face ear mar) w = Ok (tt, w1) /\
      face_lost_start (self w1) = None).
    { rewrite main_loop_body_eq. cbv zeta.
      destruct (state_eqb (state (self w)) CALIBRATING) eqn:Hst.
      - rewrite calibrate_eq. cbv zeta.
        destruct (Qgeb _ _); eexists; (split; [ reflexivity | reflexivity ]).
      - apply state_eqb_neq in Hst.
        destruct Hguard as [Hc | Hthr]; [ contradiction | ].
        destruct (ear_threshold (self w)) as [thr | ] eqn:Ht; [ | congruence ].
        destruct (update_state_calibrated
                    (with_self (set_face_lost_start None (self w)) w) ear mar
                    (thr := thr))
          as (n & w1 & -> & _ & _ & _ & Hf); auto.
        exists w1. split; [ reflexivity | exact Hf ]. }
    destruct Hface as (w1 & Hrun & Hnone).
    exists w1. split; [ exact Hrun | ]. split; [ exact Hnone | ].
    eexists. split; [ apply Hstart; exact Hnone | ].
    cbn. auto.
Qed.

(** No face since 101: the frame at 103, exactly 2.0 s later, raises
    DANGER and beeps, although the state changed only 0.5 s ago. *)
Lemma face_loss_handling_witness :
  let m := mkMonitor [] false None (Some 101) NORMAL 102.5 (Some 0.21) [0.3] 90 0.0 in
  let w := mkWorld (clock_of [103; 103]) 0 [] m in
  exists w',
    main_loop_body NoFace w = Ok (tt, w') /\
    state (self w') = DANGER /\ beeps w' = [103].
Proof.
  intros m w.
  assert (H : FACE_LOST_TIME <= now_of w - 101) by (vm_compute; discriminate).
  destruct (proj1 (proj2 face_loss_handling) w 101 eq_refl H)
    as (w' & Hrun & _ & Hs & _ & _ & Hbeep).
  exists w'. split; [ exact Hrun | ]. split; [ exact Hs | ].
  apply Hbeep. vm_compute. reflexivity.
Defined.

(** From the start of the program: no face from 101 on, DANGER at 103. *)
Example face_lost_exactly_two_seconds :
  let clk := clock_of [100; 100; 101; 103; 103] in
  exists w,
    program [NoFace; NoFace] (boot clk) = Ok (tt, w) /\
    state (self w) = DANGER /\ beeps w = [103].
Proof. intros clk. eexists. split; [ vm_compute; reflexivity | ]. split; reflexivity. Qed.

(** ** Hysteresis *)

Lemma candidate_state_drowsy n mar :
  candidate_state n mar = DROWSY <->
  (BLINK_RATE_THRESHOLD < n)%nat \/ MAR_THRESHOLD < mar.
Proof.
  unfold candidate_state.
  destruct ((BLINK_RATE_THRESHOLD <? n)%nat || Qgtb mar MAR_THRESHOLD) eqn:H.
  - apply orb_true_iff in H. rewrite Nat.ltb_lt, Qgtb_true in H. tauto.
  - apply orb_false_iff in H. destruct H as [H1 H2].
    apply Nat.ltb_ge in H1. apply Qgtb_false in H2.
    split; [ discriminate | ].
    intros [H | H]; [ lia | ]. exfalso.
    apply (Qlt_not_le _ _ H). exact H2.
Qed.

Lemma hold_or_commit_differs s now m :
  s <> state m ->
  (STATE_HOLD_TIME < now - state_change_time m ->
   hold_or_commit s now m = set_state_change_time now (set_state s m)) /\
  (now - state_change_time m <= STATE_HOLD_TIME -> hold_or_commit s now m = m).
Proof.
  intros Hne. unfold hold_or_commit.
  apply state_eqb_neq in Hne. rewrite Hne. cbn [negb].
  split; intros H.
  - apply Qgtb_true in H. rewrite H. reflexivity.
  - apply Qgtb_false in H. rewrite H. reflexivity.
Qed.

Lemma hold_or_commit_keeps s now m :
  s <> state m -> now - state_change_time m <= STATE_HOLD_TIME ->
  hold_or_commit s now m = m.
Proof. intros Hne. apply (@hold_or_commit_differs s now m Hne). Qed.

Lemma hold_or_commit_agrees now m :
  hold_or_commit (state m) now m = set_state_change_time now m.
Proof.
  unfold hold_or_commit.
  replace (state_eqb (state m) (state m)) with true
    by (symmetry; apply state_eqb_eq; reflexivity).
  reflexivity.
Qed.

Lemma update_state_calm w ear mar thr :
  ear_threshold (self w) = Some thr ->
  let now := now_of w in
  let m1 := trackers (Qltb ear thr) now (self w) in
  let blink_rate := length (blink_timestamps m1) in
  microsleep_test now m1 = false ->
  update_state ear mar w =
  Ok (blink_rate,
      with_self (hold_or_commit (candidate_state blink_rate mar) now m1) (tick w)).
Proof.
  intros Hthr now m1 blink_rate Ht.
  rewrite (update_state_eq _ _ _ Hthr). cbv zeta. fold now. fold m1.
  rewrite Ht. reflexivity.
Qed.

Lemma microsleep_test_young now m :
  (forall since, eye_close_start m = Some since -> now - since < MICROSLEEP_TIME) ->
  microsleep_test now m = false.
Proof.
  intros H. unfold microsleep_test.
  destruct (eye_close_start m) as [since | ]; [ | reflexivity ].
  destruct (Qeq_bool since 0); [ reflexivity | ].
  apply Qgeb_false. apply H. reflexivity.
Qed.

Lemma trackers_eye_close_start closed now m since :
  eye_close_start (trackers closed now m) = Some since ->
  since = now \/ eye_close_start m = Some since.
Proof.
  unfold trackers, blink_rate_window, blink_and_eye_closure.
  destruct closed; [ destruct (negb (eyes_closed_prev m)) | ]; cbn.
  - intros H; injection H as <-. left. reflexivity.
  - intros H. right. exact H.
  - discriminate.
Qed.

(** Votes read within the hold time after the reference instant [r],
    with no closure old enough to become a microsleep meanwhile. *)
Lemma hold_window_run votes : forall w thr r,
  ear_threshold (self w) = Some thr ->
  r <= state_change_time (self w) ->
  (forall n, (ticks w <= n < ticks w + length votes)%nat ->
             r <= clock w n /\ clock w n <= r + STATE_HOLD_TIME) ->
  (forall since, eye_close_start (self w) = Some since ->
                 r + STATE_HOLD_TIME - MICROSLEEP_TIME < since) ->
  exists w',
    update_states votes w = Ok (tt, w') /\
    state (self w') = state (self w) /\
    beeps w' = beeps w /\
    r <= state_change_time (self w').
Proof.
  induction votes as [ | [ear mar] rest IH ]; intros w thr r Hthr Hr Hwin Hyoung.
  - exists w. auto.
  - destruct (Hwin (ticks w)) as [Hlo Hhi]; [ cbn [length]; lia | ].
    fold (now_of w) in Hlo, Hhi.
    set (m1 := trackers (Qltb ear thr) (now_of w) (self w)).
    assert (Hyoung1 : forall since, eye_close_start m1 = Some since ->
                      r + STATE_HOLD_TIME - MICROSLEEP_TIME < since).
    { intros since Hs. apply trackers_eye_close_start in Hs.
      destruct Hs as [-> | Hs]; [ | apply Hyoung; exact Hs ].
      unfold STATE_HOLD_TIME, MICROSLEEP_TIME in *. lra. }
    assert (Ht : microsleep_test (now_of w) m1 = false).
    { apply microsleep_test_young. intros since Hs.
      specialize (Hyoung1 since Hs).
      unfold STATE_HOLD_TIME, MICROSLEEP_TIME in *. lra. }
    pose proof (@update_state_calm w ear mar thr Hthr Ht) as Hup.
    cbv zeta in Hup. fold m1 in Hup.
    set (new_state := candidate_state (length (blink_timestamps m1)) mar) in *.
    set (m2 := hold_or_commit new_state (now_of w) m1) in *.
    assert (Hs1 : state m1 = state (self w)) by apply trackers_state.
    assert (Hc1 : state_change_time m1 = state_change_time (self w))
      by apply trackers_state_change_time.
    assert (Hm2 : state m2 = state (self w) /\ r <= state_change_time m2).
    { unfold m2. destruct (state_eqb new_state (state m1)) eqn:Heq.
      - apply state_eqb_eq in Heq. rewrite Heq, hold_or_commit_agrees.
        cbn. split; [ exact Hs1 | exact Hlo ].
      - apply state_eqb_neq in Heq.
        rewrite (@hold_or_commit_keeps new_state (now_of w) m1 Heq).
        + split; [ exact Hs1 | rewrite Hc1; exact Hr ].
        + rewrite Hc1. unfold STATE_HOLD_TIME in *. lra. }
    destruct Hm2 as [Hs2 Hc2].
    destruct (IH (with_self m2 (tick w)) thr r) as (w' & Hrun & Hs & Hb & Hc).
    + cbn [self with_self]. unfold m2.
      rewrite hold_or_commit_ear_threshold. unfold m1.
      rewrite trackers_ear_threshold. exact Hthr.
    + exact Hc2.
    + intros n Hn. cbn [clock ticks with_self tick] in *.
      apply Hwin. cbn [length]. lia.
    + cbn [self with_self]. intros since Hs. apply Hyoung1.
      unfold m2 in Hs.
      destruct (hold_or_commit_latch new_state (now_of w) m1) as [_ He].
      rewrite He in Hs. exact Hs.
    + exists w'. cbn [update_states fst snd]. unfold bind at 1. rewrite Hup.
      split; [ exact Hrun | ].
      cbn [self with_self beeps tick] in Hs, Hb.
      split; [ congruence | ]. split; [ exact Hb | exact Hc ].
Qed.

(** C5: on a calibrated frame that does not take the microsleep branch
    the candidate is DROWSY exactly when the blink rate exceeds 20 or the
    mouth ratio exceeds 0.6, and NORMAL otherwise.  A candidate that
    differs from the state is committed, and the reference instant set to
    now, when more than 1.0 s has passed since the reference instant,
    whether or not the candidate was proposed during that time;
    otherwise state and reference instant stay; so a state change implies
    at least 1.0 s since the reference instant.  A candidate equal to the
    state refreshes the reference instant.  Hence no votes, agreeing or
    not, that are all read within 1.0 s after the reference instant change
    the state, when no closure is old enough to become a microsleep
    among them. *)
Theorem hysteresis_hold :
  (forall w ear mar thr,
      ear_threshold (self w) = Some thr ->
      let now := now_of w in
      let m1 := trackers (Qltb ear thr) now (self w) in
      let blink_rate := length (blink_timestamps m1) in
      let new_state := candidate_state blink_rate mar in
      microsleep_test now m1 = false ->
      exists w',
        update_state ear mar w = Ok (blink_rate, w') /\
        beeps w' = beeps w /\
        (new_state = DROWSY <->
         (BLINK_RATE_THRESHOLD < blink_rate)%nat \/ MAR_THRESHOLD < mar) /\
        (new_state = DROWSY \/ new_state = NORMAL) /\
        (new_state <> state (self w) ->
         STATE_HOLD_TIME < now - state_change_time (self w) ->
         state (self w') = new_state /\ state_change_time (self w') = now) /\
        (new_state <> state (self w) ->
         now - state_change_time (self w) <= STATE_HOLD_TIME ->
         state (self w') = state (self w) /\
         state_change_time (self w') = state_change_time (self w)) /\
        (new_state = state (self w) ->
         state (self w') = state (self w) /\ state_change_time (self w') = now) /\
        (state (self w') <> state (self w) ->
         STATE_HOLD_TIME <= now - state_change_time (self w))) /\
  (forall votes w thr,
      ear_threshold (self w) = Some thr ->
      let r := state_change_time (self w) in
      (forall n, (ticks w <= n < ticks w + length votes)%nat ->
                 r <= clock w n /\ clock w n <= r + STATE_HOLD_TIME) ->
      (forall since, eye_close_start (self w) = Some since ->
                     r + STATE_HOLD_TIME - MICROSLEEP_TIME < since) ->
      exists w',
        update_states votes w = Ok (tt, w') /\
        state (self w') = state (self w) /\
        beeps w' = beeps w).
Proof.
  split.
  2: { intros votes w thr Hthr r Hwin Hyoung.
       destruct (@hold_window_run votes w thr r Hthr (Qle_refl r) Hwin Hyoung)
         as (w' & Hrun & Hs & Hb & _).
       exists w'. auto. }
  intros w ear mar thr Hthr now m1 blink_rate new_state Ht.
  eexists. split; [ apply (@update_state_calm w ear mar thr Hthr Ht) | ].
  fold now. fold m1. fold blink_rate. fold new_state.
  cbn [beeps self with_self tick].
  assert (Hst : state m1 = state (self w)) by apply trackers_state.
  assert (Hsc : state_change_time m1 = state_change_time (self w))
    by apply trackers_state_change_time.
  rewrite <- Hst, <- Hsc.
  split; [ reflexivity | ].
  split; [ apply candidate_state_drowsy | ].
  split; [ destruct (candidate_state_cases blink_rate mar); auto | ].
  split; [ | split; [ | split ] ].
  - intros Hne Hheld.
    destruct (@hold_or_commit_differs new_state now m1 Hne) as [Hcommit _].
    rewrite (Hcommit Hheld). split; reflexivity.
  - intros Hne Hheld.
    destruct (@hold_or_commit_differs new_state now m1 Hne) as [_ Hkeep].
    rewrite (Hkeep Hheld). split; reflexivity.
  - intros Heq. rewrite Heq, hold_or_commit_agrees. split; reflexivity.
  - intros Hchg.
    destruct (Qlt_le_dec STATE_HOLD_TIME (now - state_change_time m1)) as [H | H].
    + apply Qlt_le_weak. exact H.
    + exfalso. apply Hchg.
      destruct (state_eqb new_state (state m1)) eqn:Heq.
      * apply state_eqb_eq in Heq. rewrite Heq, hold_or_commit_agrees. reflexivity.
      * apply state_eqb_neq in Heq.
        destruct (@hold_or_commit_differs new_state now m1 Heq) as [_ Hkeep].
        rewrite (Hkeep H). reflexivity.
Qed.

(** Reference instant 10.03; a yawn on the frames at 10.06 ... 10.96 and
    a blink onset among them: all within 1.0 s after the reference, and
    the state stays NORMAL. *)
Lemma hysteresis_hold_witness :
  let m := mkMonitor [] false None None NORMAL 10.03 (Some 0.21) [0.3] 4 0.0 in
  let w := mkWorld (clock_of [10.06; 10.5; 10.96]) 0 [] m in
  exists w',
    update_states [(0.3, 0.8); (0.1, 0.8); (0.3, 0.8)] w = Ok (tt, w') /\
    state (self w') = NORMAL.
Proof.
  intros m w.
  pose (votes := [(0.3, 0.8); (0.1, 0.8); (0.3, 0.8)] : list (Q * Q)).
  assert (Hwin : forall n,
    (ticks w <= n < ticks w + length votes)%nat ->
    state_change_time (self w) <= clock w n /\
    clock w n <= state_change_time (self w) + STATE_HOLD_TIME).
  { intros n Hn. cbn in Hn.
    destruct n as [ | [ | [ | n ] ] ]; [ | | | exfalso; lia ];
      split; vm_compute; discriminate. }
  assert (Hyoung : forall since, eye_close_start (self w) = Some since ->
    state_change_time (self w) + STATE_HOLD_TIME - MICROSLEEP_TIME < since)
    by (intros since H; discriminate H).
  destruct (proj2 hysteresis_hold votes w 0.21 eq_refl Hwin Hyoung)
    as (w' & Hrun & Hs & _).
  exists w'. split; [ exact Hrun | exact Hs ].
Defined.

(** C5, as the claim words it: a candidate proposed on one frame only
    and reverted on the next is committed all the same.  The last frame
    that agreed with NORMAL was read at 105.03; the face is then lost from
    105.1 to 106.5, too short for the face-loss alarm; the one frame with
    a mouth ratio of 0.8, at 106.6, is read more than 1.0 s after the
    reference instant and moves the state to DROWSY at once; the calm
    frame 30 ms later cannot move it back. *)
Lemma hysteresis_single_vote_committed :
  let clk := clock_of [100; 100; 105; 105; 105; 105.03; 105.1; 106.5; 106.6; 106.63] in
  exists w1 w2 w3,
    program [Face 0.3 0.3; Face 0.3 0.3; NoFace; NoFace] (boot clk) = Ok (tt, w1) /\
    state (self w1) = NORMAL /\ state_change_time (self w1) = 105.03 /\
    candidate_state 0%nat 0.8 = DROWSY /\ candidate_state 0%nat 0.3 = NORMAL /\
    main_loop_body (Face 0.3 0.8) w1 = Ok (tt, w2) /\
    state (self w2) = DROWSY /\
    main_loop_body (Face 0.3 0.3) w2 = Ok (tt, w3) /\
    state (self w3) = DROWSY.
Proof.
  intros clk. eexists; eexists; eexists.
  split; [ vm_compute; reflexivity | ].
  split; [ reflexivity | ]. split; [ reflexivity | ].
  split; [ reflexivity | ]. split; [ reflexivity | ].
  split; [ vm_compute; reflexivity | ]. split; [ reflexivity | ].
  split; [ vm_compute; reflexivity | reflexivity ].
Qed.

(** The spec's scenario: the spike between two calm frames. *)
Example mouth_spike_absorbed :
  let m := mkMonitor [] false None None NORMAL 10 (Some 0.21) [0.3] 4 0.0 in
  let w := mkWorld (clock_of [10.03; 10.06; 10.09]) 0 [] m in
  exists w',
    update_states [(0.3, 0.3); (0.3, 0.8); (0.3, 0.3)] w = Ok (tt, w') /\
    state (self w') = NORMAL /\ state_change_time (self w') = 10.09.
Proof.
  intros m w. eexists. split; [ vm_compute; reflexivity | ]. split; reflexivity.
Qed.

(** 25 blinks in the last minute: the DROWSY vote wins once more than
    1.0 s has passed since the reference instant, not before. *)
Example many_blinks_drowsy_after_hold :
  let blinks := map (fun k => inject_Z (Z.of_nat k)) (seq 40 25) in
  let m := mkMonitor blinks false None None NORMAL 70 (Some 0.21) [0.3] 4 0.0 in
  let w := mkWorld (clock_of [70.5; 71; 71.5]) 0 [] m in
  exists w1 w2,
    update_states [(0.3, 0.3); (0.3, 0.3)] w = Ok (tt, w1) /\
    state (self w1) = NORMAL /\
    update_state 0.3 0.3 w1 = Ok (25%nat, w2) /\
    state (self w2) = DROWSY.
Proof.
  intros blinks m w. eexists; eexists.
  split; [ vm_compute; reflexivity | ].
  split; [ reflexivity | ].
  split; [ vm_compute; reflexivity | reflexivity ].
Qed.


(** ** Blink counting *)

Lemma popleft_old_suffix now ts :
  exists dropped, ts = dropped ++ popleft_old now ts.
Proof.
  induction ts as [ | t0 rest IH ].
  - exists []. reflexivity.
  - cbn [popleft_old]. destruct (Qgtb _ _).
    + destruct IH as (dropped & Hd). exists (t0 :: dropped).
      cbn. rewrite <- Hd. reflexivity.
    + exists []. reflexivity.
Qed.

Lemma popleft_old_fresh now ts :
  Forall (fun t => now - t <= BLINK_WINDOW) ts -> popleft_old now ts = ts.
Proof.
  intros H. destruct H as [ | t0 rest H0 _ ]; [ reflexivity | ].
  cbn [popleft_old]. apply Qgtb_false in H0. rewrite H0. reflexivity.
Qed.

(** One frame of a closure that is already latched. *)
Lemma update_state_latched w ear mar thr :
  ear_threshold (self w) = Some thr -> ear < thr ->
  eyes_closed_prev (self w) = true ->
  exists n w',
    update_state ear mar w = Ok (n, w') /\
    clock w' = clock w /\ (ticks w < ticks w')%nat /\
    ear_threshold (self w') = Some thr /\
    eyes_closed_prev (self w') = true /\
    eye_close_start (self w') = eye_close_start (self w) /\
    blink_timestamps (self w') = popleft_old (now_of w) (blink_timestamps (self w)).
Proof.
  intros Hthr Hlt Hlatch. rewrite (update_state_eq _ _ _ Hthr). cbv zeta.
  apply Qltb_true in Hlt. rewrite Hlt.
  assert (Hm1 : trackers true (now_of w) (self w) =
                blink_rate_window (now_of w) (self w)).
  { unfold trackers, blink_and_eye_closure. rewrite Hlatch. reflexivity. }
  rewrite Hm1.
  destruct (microsleep_test _ _).
  - destruct (trigger_alarm_shape
                (with_self (set_state DANGER
                   (blink_rate_window (now_of w) (self w))) (tick w)))
      as (bs & t & ->).
    eexists; eexists; split; [ reflexivity | ].
    cbn. repeat split; auto.
  - eexists; eexists; split; [ reflexivity | ].
    cbn [self clock ticks with_self tick].
    rewrite hold_or_commit_ear_threshold, hold_or_commit_blink_timestamps.
    destruct (hold_or_commit_latch
                (candidate_state
                   (length (blink_timestamps
                      (blink_rate_window (now_of w) (self w)))) mar)
                (now_of w) (blink_rate_window (now_of w) (self w)))
      as [-> ->].
    cbn. repeat split; auto.
Qed.

Lemma update_states_latched votes : forall w thr,
  ear_threshold (self w) = Some thr ->
  eyes_closed_prev (self w) = true ->
  Forall (fun v => fst v < thr) votes ->
  exists w',
    update_states votes w = Ok (tt, w') /\
    clock w' = clock w /\ (ticks w <= ticks w')%nat /\
    eyes_closed_prev (self w') = true /\
    eye_close_start (self w') = eye_close_start (self w) /\
    (exists dropped,
        blink_timestamps (self w) = dropped ++ blink_timestamps (self w')) /\
    ((forall n t, (ticks w <= n)%nat -> In t (blink_timestamps (self w)) ->
                  clock w n - t <= BLINK_WINDOW) ->
     blink_timestamps (self w') = blink_timestamps (self w)).
Proof.
  induction votes as [ | [ear mar] rest IH ]; intros w thr Hthr Hlatch Hall.
  - exists w. repeat split; auto. exists []. reflexivity.
  - inversion Hall as [ | v l Hlt Hrest ]; subst. cbn [fst] in Hlt.
    destruct (@update_state_latched w ear mar thr Hthr Hlt Hlatch)
      as (n & w1 & Hup & Hc1 & Hk1 & Ht1 & Hl1 & Hs1 & Hb1).
    destruct (IH w1 thr Ht1 Hl1 Hrest)
      as (w' & Hrun & Hc & Hk & Hl & Hs & (dropped & Hd) & Hfresh).
    exists w'. cbn [update_states fst snd]. unfold bind at 1. rewrite Hup.
    split; [ exact Hrun | ].
    split; [ congruence | ]. split; [ lia | ].
    split; [ exact Hl | ]. split; [ congruence | ].
    split.
    + destruct (popleft_old_suffix (now_of w) (blink_timestamps (self w)))
        as (dropped1 & Hd1).
      exists (dropped1 ++ dropped).
      rewrite <- app_assoc, <- Hd, Hb1. exact Hd1.
    + intros Hwin.
      assert (Hsame : blink_timestamps (self w1) = blink_timestamps (self w)).
      { rewrite Hb1. apply popleft_old_fresh. apply Forall_forall.
        intros t Hin. apply (Hwin (ticks w) t); auto. }
      rewrite Hfresh; [ exact Hsame | ].
      intros k t Hk' Hin. rewrite Hc1. rewrite Hsame in Hin.
      apply Hwin; [ lia | exact Hin ].
Qed.

(** C7: in the tracker block a closed frame with the latch down appends
    its instant, sets the latch and starts the episode; a closed frame
    with the latch up changes nothing; an open frame clears latch and
    episode and appends nothing.  Through [update_state], a closure of
    1 + k consecutive frames that starts with the latch down ends with the
    latch up, the episode started at the first frame's instant, and the
    blink sequence equal to the old one plus that one instant, less what
    the window pruned from its front: exactly one more entry when nothing
    recorded leaves the window meanwhile.  A frame at or above the
    threshold leaves latch and episode cleared. *)
Theorem leading_edge_blink :
  (forall m now,
      eyes_closed_prev m = false ->
      blink_and_eye_closure true now m =
      set_eye_close_start (Some now)
        (set_eyes_closed_prev true
          (set_blink_timestamps (blink_timestamps m ++ [now]) m))) /\
  (forall m now,
      eyes_closed_prev m = true -> blink_and_eye_closure true now m = m) /\
  (forall m now,
      blink_and_eye_closure false now m =
      set_eye_close_start None (set_eyes_closed_prev false m)) /\
  (forall votes w thr ear mar,
      ear_threshold (self w) = Some thr ->
      eyes_closed_prev (self w) = false ->
      ear < thr -> Forall (fun v => fst v < thr) votes ->
      exists w',
        update_states ((ear, mar) :: votes) w = Ok (tt, w') /\
        eyes_closed_prev (self w') = true /\
        eye_close_start (self w') = Some (now_of w) /\
        (exists dropped,
            blink_timestamps (self w) ++ [now_of w] =
            dropped ++ blink_timestamps (self w')) /\
        ((forall n t, (ticks w <= n)%nat ->
                      In t (blink_timestamps (self w) ++ [now_of w]) ->
                      clock w n - t <= BLINK_WINDOW) ->
         blink_timestamps (self w') = blink_timestamps (self w) ++ [now_of w] /\
         length (blink_timestamps (self w')) =
         S (length (blink_timestamps (self w))))) /\
  (forall w ear mar thr,
      ear_threshold (self w) = Some thr -> thr <= ear ->
      exists n w',
        update_state ear mar w = Ok (n, w') /\
        eyes_closed_prev (self w') = false /\
        eye_close_start (self w') = None /\
        exists dropped,
          blink_timestamps (self w) = dropped ++ blink_timestamps (self w')).
Proof.
  split; [ | split; [ | split; [ | split ] ] ].
  - intros m now H. unfold blink_and_eye_closure. rewrite H. reflexivity.
  - intros m now H. unfold blink_and_eye_closure. rewrite H. reflexivity.
  - reflexivity.
  - intros votes w thr ear mar Hthr Hlatch Hlt Hall.
    (* the onset frame, by the latched case on the world with the latch set *)
    pose (m0 := blink_and_eye_closure true (now_of w) (self w)).
    assert (Hm0 : m0 = set_eye_close_start (Some (now_of w))
                    (set_eyes_closed_prev true
                      (set_blink_timestamps
                         (blink_timestamps (self w) ++ [now_of w]) (self w)))).
    { unfold m0, blink_and_eye_closure. rewrite Hlatch. reflexivity. }
    assert (Hsame : update_state ear mar w = update_state ear mar (with_self m0 w)).
    { rewrite (update_state_eq _ _ _ Hthr).
      rewrite (@update_state_eq (with_self m0 w) ear mar thr)
        by (rewrite Hm0; exact Hthr).
      cbv zeta. apply Qltb_true in Hlt. rewrite Hlt.
      assert (Htr : trackers true (now_of (with_self m0 w)) (self (with_self m0 w))
                    = trackers true (now_of w) (self w)).
      { unfold trackers. fold m0. cbn [self with_self]. unfold now_of at 1 2.
        cbn [clock ticks with_self]. fold (now_of w).
        replace (blink_and_eye_closure true (now_of w) m0) with m0; [ reflexivity | ].
        rewrite Hm0. reflexivity. }
      rewrite Htr. reflexivity. }
    assert (Hthr0 : ear_threshold (self (with_self m0 w)) = Some thr)
      by (rewrite Hm0; exact Hthr).
    assert (Hlatch0 : eyes_closed_prev (self (with_self m0 w)) = true)
      by (rewrite Hm0; reflexivity).
    destruct (@update_states_latched ((ear, mar) :: votes) (with_self m0 w) thr
                Hthr0 Hlatch0 (Forall_cons (ear, mar) Hlt Hall))
      as (w' & Hrun & _ & _ & Hl & Hs & Hd & Hfresh).
    exists w'. split.
    { cbn [update_states fst snd] in Hrun |- *. unfold bind at 1.
      unfold bind at 1 in Hrun. rewrite Hsame. exact Hrun. }
    rewrite Hm0 in Hs, Hd, Hfresh. cbn in Hs, Hd, Hfresh.
    split; [ exact Hl | ]. split; [ exact Hs | ]. split; [ exact Hd | ].
    intros Hwin. rewrite Hfresh by exact Hwin.
    split; [ reflexivity | ]. rewrite length_app, Nat.add_1_r. reflexivity.
  - intros w ear mar thr Hthr Hge. rewrite (update_state_eq _ _ _ Hthr). cbv zeta.
    assert (Hopen : Qltb ear thr = false).
    { unfold Qltb. apply negb_false_iff. apply Qle_bool_iff. exact Hge. }
    rewrite Hopen.
    destruct (popleft_old_suffix (now_of w) (blink_timestamps (self w)))
      as (dropped & Hd).
    destruct (microsleep_test _ _).
    + destruct (trigger_alarm_shape
                  (with_self (set_state DANGER
                     (trackers false (now_of w) (self w))) (tick w)))
        as (bs & t & ->).
      eexists; eexists; split; [ reflexivity | ].
      cbn. repeat split; auto. exists dropped. exact Hd.
    + eexists; eexists; split; [ reflexivity | ].
      cbn [self with_self tick].
      rewrite hold_or_commit_blink_timestamps.
      destruct (hold_or_commit_latch
                  (candidate_state
                     (length (blink_timestamps
                        (trackers false (now_of w) (self w)))) mar)
                  (now_of w) (trackers false (now_of w) (self w)))
        as [-> ->].
      cbn. repeat split; auto. exists dropped. exact Hd.
Qed.

(** A closure of four frames at 30 ms: one blink recorded, not four. *)
Lemma leading_edge_blink_witness :
  let m := mkMonitor [3; 7] false None None NORMAL 10 (Some 0.21) [0.3] 4 0.0 in
  let w := mkWorld (clock_of [10.03; 10.06; 10.09; 10.12]) 0 [] m in
  exists w',
    update_states [(0.15, 0.3); (0.1, 0.3); (0.1, 0.3); (0.15, 0.3)] w = Ok (tt, w') /\
    eyes_closed_prev (self w') = true /\
    eye_close_start (self w') = Some 10.03 /\
    exists dropped, [3; 7; 10.03] = dropped ++ blink_timestamps (self w').
Proof.
  intros m w.
  assert (Hlt : 0.15 < 0.21) by (vm_compute; reflexivity).
  assert (Hall : Forall (fun v : Q * Q => fst v < 0.21)
                   [(0.1, 0.3); (0.1, 0.3); (0.15, 0.3)])
    by (repeat constructor).
  destruct (proj1 (proj2 (proj2 (proj2 leading_edge_blink)))
              [(0.1, 0.3); (0.1, 0.3); (0.15, 0.3)] w 0.21 0.15 0.3
              eq_refl eq_refl Hlt Hall)
    as (w' & Hrun & Hl & Hs & Hd & _).
  exists w'. split; [ exact Hrun | ]. split; [ exact Hl | ].
  split; [ exact Hs | exact Hd ].
Defined.

Example four_frame_closure_one_blink :
  let m := mkMonitor [3; 7] false None None NORMAL 10 (Some 0.21) [0.3] 4 0.0 in
  let w := mkWorld (clock_of [10.03; 10.06; 10.09; 10.12]) 0 [] m in
  exists w',
    update_states [(0.15, 0.3); (0.1, 0.3); (0.1, 0.3); (0.15, 0.3)] w = Ok (tt, w') /\
    blink_timestamps (self w') = [3; 7; 10.03].
Proof. intros m w. eexists. split; [ vm_compute; reflexivity | reflexivity ]. Qed.

(** ** The blink-rate window *)

Lemma in_window_true now t : in_window now t = true <-> now - t <= BLINK_WINDOW.
Proof. unfold in_window. rewrite negb_true_iff. apply Qgtb_false. Qed.

Lemma filter_all {A} (p : A -> bool) l :
  Forall (fun x => p x = true) l -> filter p l = l.
Proof.
  induction 1 as [ | x l Hx _ IH ]; [ reflexivity | ].
  cbn. rewrite Hx, IH. reflexivity.
Qed.

(** On a chronological sequence the loop removes exactly the timestamps
    older than the window. *)
Lemma popleft_old_filter now ts :
  StronglySorted Qle ts -> popleft_old now ts = filter (in_window now) ts.
Proof.
  induction 1 as [ | t0 rest Hsorted IH Hle ]; [ reflexivity | ].
  cbn [popleft_old filter]. unfold in_window at 1.
  destruct (Qgtb (now - t0) BLINK_WINDOW) eqn:Hold; cbn [negb].
  - exact IH.
  - f_equal. symmetry. apply filter_all.
    apply Qgtb_false in Hold.
    rewrite Forall_forall in Hle |- *. intros t Hin.
    apply in_window_true. specialize (Hle t Hin). unfold BLINK_WINDOW in *. lra.
Qed.

Lemma chronological_snoc ts now :
  chronological ts now -> chronological (ts ++ [now]) now.
Proof.
  intros [Hs Hb]. split.
  - induction Hs as [ | t0 rest Hsorted IH Hle ].
    + constructor; constructor.
    + inversion Hb as [ | ? ? Ht0 Hrest ]; subst.
      cbn. constructor; [ apply IH; exact Hrest | ].
      apply Forall_app. split; [ exact Hle | ].
      constructor; [ exact Ht0 | constructor ].
  - apply Forall_app. split; [ exact Hb | ].
    constructor; [ apply Qle_refl | constructor ].
Qed.

Lemma chronological_filter p ts now :
  chronological ts now -> chronological (filter p ts) now.
Proof.
  intros [Hs Hb]. split.
  - induction Hs as [ | t0 rest Hsorted IH Hle ]; [ constructor | ].
    inversion Hb as [ | ? ? Ht0 Hrest ]; subst.
    cbn. destruct (p t0); [ | apply IH; exact Hrest ].
    constructor; [ apply IH; exact Hrest | ].
    rewrite Forall_forall in Hle |- *. intros t Hin.
    apply Hle. apply filter_In in Hin. apply Hin.
  - rewrite Forall_forall in Hb |- *. intros t Hin.
    apply Hb. apply filter_In in Hin. apply Hin.
Qed.

Lemma chronological_later ts now now' :
  now <= now' -> chronological ts now -> chronological ts now'.
Proof.
  intros Hle [Hs Hb]. split; [ exact Hs | ].
  rewrite Forall_forall in Hb |- *. intros t Hin.
  apply Qle_trans with now; auto.
Qed.

Lemma blink_and_eye_closure_chronological closed now m :
  chronological (blink_timestamps m) now ->
  chronological (blink_timestamps (blink_and_eye_closure closed now m)) now.
Proof.
  intros H. unfold blink_and_eye_closure.
  destruct closed; [ destruct (negb _) | ]; cbn; auto.
  apply chronological_snoc. exact H.
Qed.

(** One calibrated update on a chronological sequence. *)
Lemma update_state_window w ear mar thr :
  ear_threshold (self w) = Some thr ->
  chronological (blink_timestamps (self w)) (now_of w) ->
  let now := now_of w in
  let recorded :=
    blink_timestamps (blink_and_eye_closure (Qltb ear thr) now (self w)) in
  exists n w',
    update_state ear mar w = Ok (n, w') /\
    blink_timestamps (self w') = filter (in_window now) recorded /\
    n = length (blink_timestamps (self w')) /\
    Forall (fun t => now - t <= BLINK_WINDOW) (blink_timestamps (self w')) /\
    (forall t, In t recorded -> BLINK_WINDOW < now - t ->
               ~ In t (blink_timestamps (self w'))) /\
    chronological (blink_timestamps (self w')) now.
Proof.
  intros Hthr Hchr now recorded.
  assert (Hrec : chronological recorded now)
    by (apply blink_and_eye_closure_chronological; exact Hchr).
  assert (Hm1 : blink_timestamps (trackers (Qltb ear thr) now (self w)) =
                filter (in_window now) recorded).
  { unfold trackers, blink_rate_window. cbn [blink_timestamps set_blink_timestamps].
    apply popleft_old_filter. apply Hrec. }
  assert (Hpost : forall ts, ts = filter (in_window now) recorded ->
    Forall (fun t => now - t <= BLINK_WINDOW) ts /\
    (forall t, In t recorded -> BLINK_WINDOW < now - t -> ~ In t ts) /\
    chronological ts now).
  { intros ts ->. split; [ | split ].
    - apply Forall_forall. intros t Hin. apply filter_In in Hin.
      apply in_window_true. apply Hin.
    - intros t _ Hold Hin. apply filter_In in Hin. destruct Hin as [_ Hin].
      apply in_window_true in Hin. apply (Qlt_not_le _ _ Hold). exact Hin.
    - apply chronological_filter. exact Hrec. }
  rewrite (update_state_eq _ _ _ Hthr). cbv zeta. fold now.
  destruct (microsleep_test _ _).
  - destruct (trigger_alarm_shape
                (with_self (set_state DANGER
                   (trackers (Qltb ear thr) now (self w))) (tick w)))
      as (bs & t & ->).
    eexists; eexists; split; [ reflexivity | ].
    cbn [self with_self tick set_last_alarm_time set_state blink_timestamps].
    fold (blink_timestamps (trackers (Qltb ear thr) now (self w))).
    split; [ exact Hm1 | ]. split; [ reflexivity | ].
    apply Hpost. exact Hm1.
  - eexists; eexists; split; [ reflexivity | ].
    cbn [self with_self tick].
    rewrite hold_or_commit_blink_timestamps.
    split; [ exact Hm1 | ]. split; [ reflexivity | ].
    apply Hpost. exact Hm1.
Qed.

(** *** The order holds along every run under a monotone clock *)

Lemma trigger_alarm_clock w w' :
  trigger_alarm w = Ok (tt, w') ->
  clock w' = clock w /\ (ticks w < ticks w')%nat /\
  blink_timestamps (self w') = blink_timestamps (self w).
Proof.
  destruct (trigger_alarm_shape w) as (bs & t & ->).
  intros H; injection H as <-. cbn. auto.
Qed.

Lemma update_state_clock w ear mar n w' :
  update_state ear mar w = Ok (n, w') ->
  clock w' = clock w /\ (ticks w < ticks w')%nat.
Proof.
  destruct (ear_threshold (self w)) as [thr | ] eqn:Hthr.
  - rewrite (update_state_eq _ _ _ Hthr). cbv zeta.
    destruct (microsleep_test _ _).
    + destruct (trigger_alarm _) as [[[] w1] | e] eqn:Htr; [ | discriminate ].
      intros H; injection H as _ <-.
      apply trigger_alarm_clock in Htr. cbn in Htr.
      destruct Htr as (Hc & Hk & _). split; [ exact Hc | lia ].
    + intros H; injection H as _ <-. cbn. auto.
  - rewrite (update_state_unset _ _ _ Hthr). discriminate.
Qed.

Lemma main_loop_body_chronological w f w' :
  monotone (clock w) ->
  chronological (blink_timestamps (self w)) (now_of w) ->
  main_loop_body f w = Ok (tt, w') ->
  clock w' = clock w /\
  chronological (blink_timestamps (self w')) (now_of w').
Proof.
  intros Hmono Hchr.
  assert (Hlater : forall w1,
    clock w1 = clock w -> (ticks w <= ticks w1)%nat ->
    chronological (blink_timestamps (self w1)) (now_of w) ->
    clock w1 = clock w /\ chronological (blink_timestamps (self w1)) (now_of w1)).
  { intros w1 Hc Hk H. split; [ exact Hc | ].
    apply chronological_later with (now := now_of w); [ | exact H ].
    unfold now_of. rewrite Hc. apply Hmono. exact Hk. }
  rewrite main_loop_body_eq. destruct f as [ | ear mar ].
  - rewrite handle_face_lost_eq.
    destruct (face_lost_start (self w)) as [since | ].
    + destruct (Qgeb _ _).
      * intros Htr. apply trigger_alarm_clock in Htr. cbn in Htr.
        destruct Htr as (Hc & Hk & Hb).
        apply Hlater; [ exact Hc | lia | rewrite Hb; exact Hchr ].
      * intros H; injection H as <-. apply Hlater; cbn; auto.
    + intros H; injection H as <-. apply Hlater; cbn; auto.
  - cbv zeta. destruct (state_eqb _ _).
    + rewrite calibrate_eq. cbv zeta.
      destruct (Qgeb _ _); intros H; injection H as <-; apply Hlater; cbn; auto.
    + destruct (update_state ear mar _) as [[n w1] | e] eqn:Hup; [ | discriminate ].
      intros H; injection H as <-.
      destruct (update_state_clock _ _ _ Hup) as [Hc Hk]. cbn in Hc, Hk.
      apply Hlater; [ exact Hc | lia | ].
      destruct (ear_threshold (self w)) as [thr | ] eqn:Hthr.
      * destruct (@update_state_window
                    (with_self (set_face_lost_start None (self w)) w) ear mar thr
                    Hthr Hchr)
          as (n' & w2 & Hup' & _ & _ & _ & _ & Hchr').
        rewrite Hup in Hup'. injection Hup' as _ <-. exact Hchr'.
      * rewrite update_state_unset in Hup by exact Hthr. discriminate.
Qed.

Lemma main_loop_chronological frames : forall w w',
  monotone (clock w) ->
  chronological (blink_timestamps (self w)) (now_of w) ->
  main_loop frames w = Ok (tt, w') ->
  chronological (blink_timestamps (self w')) (now_of w').
Proof.
  induction frames as [ | f rest IH ]; intros w w' Hmono Hchr.
  - intros H; injection H as <-. exact Hchr.
  - rewrite main_loop_cons.
    destruct (main_loop_body f w) as [[[] w1] | e] eqn:Hf; [ | discriminate ].
    destruct (@main_loop_body_chronological w f w1 Hmono Hchr Hf) as [Hc Hchr1].
    apply IH; [ rewrite Hc; exact Hmono | exact Hchr1 ].
Qed.

(** Every state the program reaches under a clock that never runs
    backwards has its blink timestamps in chronological order. *)
Lemma program_chronological clk frames w :
  monotone clk ->
  program frames (boot clk) = Ok (tt, w) ->
  chronological (blink_timestamps (self w)) (now_of w).
Proof.
  intros Hmono. rewrite program_eq.
  apply main_loop_chronological; [ exact Hmono | ].
  split; constructor.
Qed.

(** C8: a calibrated update whose blink timestamps are in chronological
    order and not later than the current instant keeps, of the timestamps
    recorded so far (this frame's onset included), exactly those at most
    60 s old, in order, and returns their number as the blink rate; and
    every state the program reaches under a clock that never runs
    backwards has its timestamps in that order. *)
Theorem blink_rate_window_count :
  (forall w ear mar thr,
      ear_threshold (self w) = Some thr ->
      chronological (blink_timestamps (self w)) (now_of w) ->
      let now := now_of w in
      let recorded :=
        blink_timestamps (blink_and_eye_closure (Qltb ear thr) now (self w)) in
      exists n w',
        update_state ear mar w = Ok (n, w') /\
        blink_timestamps (self w') = filter (in_window now) recorded /\
        n = length (blink_timestamps (self w')) /\
        Forall (fun t => now - t <= BLINK_WINDOW) (blink_timestamps (self w')) /\
        (forall t, In t recorded -> BLINK_WINDOW < now - t ->
                   ~ In t (blink_timestamps (self w'))) /\
        chronological (blink_timestamps (self w')) now) /\
  (forall clk frames w,
      monotone clk ->
      program frames (boot clk) = Ok (tt, w) ->
      chronological (blink_timestamps (self w)) (now_of w)).
Proof.
  split.
  - exact update_state_window.
  - exact program_chronological.
Qed.

(** Blinks at 5, 30 and 64.5; an update at 70 keeps the two that are at
    most 60 s old. *)
Lemma blink_rate_window_count_witness :
  let m := mkMonitor [5; 30; 64.5] false None None NORMAL 69 (Some 0.21) [0.3] 0 0.0 in
  let w := mkWorld (clock_of [70]) 0 [] m in
  exists n w',
    update_state 0.3 0.3 w = Ok (n, w') /\
    blink_timestamps (self w') = [30; 64.5] /\ n = 2%nat.
Proof.
  intros m w.
  assert (Hchr : chronological (blink_timestamps (self w)) (now_of w)).
  { split.
    - repeat constructor; vm_compute; discriminate.
    - repeat constructor; vm_compute; discriminate. }
  destruct (proj1 blink_rate_window_count w 0.3 0.3 0.21 eq_refl Hchr)
    as (n & w' & Hrun & Hts & Hn & _).
  exists n, w'. split; [ exact Hrun | ].
  assert (Hts' : blink_timestamps (self w') = [30; 64.5])
    by (rewrite Hts; vm_compute; reflexivity).
  split; [ exact Hts' | ]. rewrite Hn, Hts'. reflexivity.
Defined.

(** The order is what the loop relies on: it stops at the first timestamp
    inside the window, whatever follows it. *)
Example popleft_old_stops_at_first_fresh :
  popleft_old 965 [1000; 900] = [1000; 900].
Proof. reflexivity. Qed.

(** The spec's scenario: ratio 0.3 for 5 s gives threshold 0.21; then
    ratio 0.15 for 2.1 s gives DANGER and exactly one beep. *)
Example calibrate_then_microsleep :
  let clk := clock_of [100; 100; 102; 102; 105; 105; 105; 106; 107; 108.1; 108.1] in
  exists w,
    program [Face 0.3 0.3; Face 0.3 0.3; Face 0.15 0.3; Face 0.15 0.3; Face 0.15 0.3]
      (boot clk) = Ok (tt, w) /\
    Qeq_bool (0.7 * (py_sum [0.3; 0.3] / inject_Z 2)) 0.21 = true /\
    state (self w) = DANGER /\ beeps w = [108.1].
Proof.
  intros clk. eexists. split; [ vm_compute; reflexivity | ].
  split; [ reflexivity | ]. split; reflexivity.
Qed.

(** * Further properties of the code *)

(** ** The ratio functions *)

Section MoreMath.
Local Open Scope R_scope.

Lemma euclidean_dist_sym p q : euclidean_dist p q = euclidean_dist q p.
Proof. unfold euclidean_dist. f_equal. ring. Qed.

(** X1: [euclidean_dist] is a metric on the plane: non-negative, symmetric,
    zero exactly between equal points, and it obeys the triangle
    inequality. *)
Theorem euclidean_dist_metric (p q r : point) :
  0 <= euclidean_dist p q /\
  euclidean_dist p q = euclidean_dist q p /\
  (euclidean_dist p q = 0 <-> p = q) /\
  euclidean_dist p r <= euclidean_dist p q + euclidean_dist q r.
Proof.
  split; [ apply euclidean_dist_nonneg | ].
  split; [ apply euclidean_dist_sym | ].
  split.
  - split; [ apply euclidean_dist_zero | intros ->; apply euclidean_dist_same ].
  - destruct p as [px py], q as [qx qy], r as [rx ry].
    unfold euclidean_dist; cbn [fst snd].
    set (a := px - qx). set (b := py - qy). set (c := qx - rx). set (d := qy - ry).
    replace (px - rx) with (a + c) by (unfold a, c; ring).
    replace (py - ry) with (b + d) by (unfold b, d; ring).
    assert (Hsq : forall t : R, 0 <= t * t)
      by (intros t; rewrite <- Rsqr_def; apply Rle_0_sqr).
    assert (Hab : 0 <= a * a + b * b)
      by (apply Rplus_le_le_0_compat; apply Hsq).
    assert (Hcd : 0 <= c * c + d * d)
      by (apply Rplus_le_le_0_compat; apply Hsq).
    assert (Hac : 0 <= (a + c) * (a + c) + (b + d) * (b + d))
      by (apply Rplus_le_le_0_compat; apply Hsq).
    pose proof (sqrt_pos (a * a + b * b)) as Hs1.
    pose proof (sqrt_pos (c * c + d * d)) as Hs2.
    pose proof (sqrt_sqrt _ Hab) as Hq1.
    pose proof (sqrt_sqrt _ Hcd) as Hq2.
    set (u := sqrt (a * a + b * b)) in *.
    set (v := sqrt (c * c + d * d)) in *.
    apply Rsqr_incr_0_var; [ | lra ].
    rewrite Rsqr_sqrt by exact Hac.
    unfold Rsqr.
    assert (Hcs : a * c + b * d <= u * v).
    { destruct (Rle_dec (a * c + b * d) 0) as [Hneg | Hpos].
      - apply Rle_trans with 0; [ exact Hneg | apply Rmult_le_pos; assumption ].
      - apply Rsqr_incr_0_var; [ | apply Rmult_le_pos; assumption ].
        unfold Rsqr.
        replace (u * v * (u * v)) with ((u * u) * (v * v)) by ring.
        rewrite Hq1, Hq2.
        pose proof (Hsq (a * d - b * c)) as Hdet.
        replace ((a * a + b * b) * (c * c + d * d))
          with ((a * c + b * d) * (a * c + b * d) + (a * d - b * c) * (a * d - b * c))
          by ring.
        lra. }
    replace ((a + c) * (a + c) + (b + d) * (b + d))
      with ((a * a + b * b) + (c * c + d * d) + 2 * (a * c + b * d)) by ring.
    replace ((u + v) * (u + v)) with (u * u + v * v + 2 * (u * v)) by ring.
    rewrite Hq1, Hq2. lra.
Qed.

Lemma getitem_map (f : point -> point) contour i :
  getitem (map f contour) i =
  match getitem contour i with
  | Ok p => Ok (f p)
  | Raise e => Raise e
  end.
Proof.
  unfold getitem. rewrite nth_error_map.
  destruct (nth_error contour i); reflexivity.
Qed.

Lemma euclidean_dist_scale k p q :
  euclidean_dist (scale k p) (scale k q) = Rabs k * euclidean_dist p q.
Proof.
  unfold euclidean_dist, scale; cbn [fst snd].
  replace ((k * fst p - k * fst q) * (k * fst p - k * fst q) +
           (k * snd p - k * snd q) * (k * snd p - k * snd q))
    with (k² * ((fst p - fst q) * (fst p - fst q) + (snd p - snd q) * (snd p - snd q)))
    by (unfold Rsqr; ring).
  rewrite sqrt_mult_alt by apply Rle_0_sqr.
  rewrite sqrt_Rsqr_abs. reflexivity.
Qed.

Lemma euclidean_dist_shift d p q :
  euclidean_dist (shift d p) (shift d q) = euclidean_dist p q.
Proof. unfold euclidean_dist, shift; cbn [fst snd]. f_equal. ring. Qed.

Lemma ratio_scale k A B C :
  k <> 0 ->
  (if Req_dec_T (Rabs k * C) 0 then 0
   else (Rabs k * A + Rabs k * B) / (2 * (Rabs k * C))) =
  (if Req_dec_T C 0 then 0 else (A + B) / (2 * C)).
Proof.
  intros Hk. apply Rabs_no_R0 in Hk.
  destruct (Req_dec_T C 0) as [HC | HC]; destruct (Req_dec_T (Rabs k * C) 0) as [HkC | HkC].
  - reflexivity.
  - contradiction HkC. rewrite HC. ring.
  - apply Rmult_integral in HkC. destruct HkC; contradiction.
  - field. split; assumption.
Qed.

(** X2: The ratios do not depend on the scale of the contour nor on where it
    lies in the image: scaling all points by a non-zero factor, or moving
    them all by the same vector, gives the same result (the same number or
    the same exception), for contours of any length. *)
Theorem aspect_ratio_invariant (contour : list point) :
  (forall k, k <> 0 ->
      eye_aspect_ratio (map (scale k) contour) = eye_aspect_ratio contour /\
      mouth_aspect_ratio (map (scale k) contour) = mouth_aspect_ratio contour) /\
  (forall d,
      eye_aspect_ratio (map (shift d) contour) = eye_aspect_ratio contour /\
      mouth_aspect_ratio (map (shift d) contour) = mouth_aspect_ratio contour).
Proof.
  split.
  - intros k Hk. unfold eye_aspect_ratio, mouth_aspect_ratio.
    rewrite !getitem_map.
    destruct (getitem contour 1), (getitem contour 5), (getitem contour 2),
      (getitem contour 4), (getitem contour 0), (getitem contour 3);
      try (split; reflexivity).
    rewrite !euclidean_dist_scale.
    rewrite (ratio_scale _ _ _ Hk). split; reflexivity.
  - intros d. unfold eye_aspect_ratio, mouth_aspect_ratio.
    rewrite !getitem_map.
    destruct (getitem contour 1), (getitem contour 5), (getitem contour 2),
      (getitem contour 4), (getitem contour 0), (getitem contour 3);
      try (split; reflexivity).
    rewrite !euclidean_dist_shift. split; reflexivity.
Qed.

(** An eye twice as large and moved: the same ratio. *)
Lemma aspect_ratio_invariant_witness :
  eye_aspect_ratio
    (map (scale 2) [(0, 0); (2, 2); (4, 2); (6, 0); (4, -2); (2, -2)]) =
  eye_aspect_ratio [(0, 0); (2, 2); (4, 2); (6, 0); (4, -2); (2, -2)].
Proof.
  apply (proj1 (aspect_ratio_invariant
                  [(0, 0); (2, 2); (4, 2); (6, 0); (4, -2); (2, -2)])).
  lra.
Defined.

(** X3: Fewer than six points: [IndexError].  Six or more: a number, and only
    the first six points count. *)
Theorem aspect_ratio_length (contour : list point) :
  ((length contour < 6)%nat ->
   eye_aspect_ratio contour = Raise IndexError /\
   mouth_aspect_ratio contour = Raise IndexError) /\
  ((6 <= length contour)%nat ->
   (exists r, eye_aspect_ratio contour = Ok r /\ mouth_aspect_ratio contour = Ok r) /\
   eye_aspect_ratio contour = eye_aspect_ratio (firstn 6 contour) /\
   mouth_aspect_ratio contour = mouth_aspect_ratio (firstn 6 contour)).
Proof.
  destruct contour as [ | p0 [ | p1 [ | p2 [ | p3 [ | p4 [ | p5 rest ] ] ] ] ] ];
    cbn [length]; (split; [ intros Hlen | intros Hlen ]);
    try (exfalso; lia); try (split; reflexivity).
  split; [ | split; reflexivity ].
  eexists. split; reflexivity.
Qed.

(** X4: The ratio is 0 exactly for a contour whose corners coincide or whose
    two lid pairs both coincide. *)
Theorem aspect_ratio_zero (p0 p1 p2 p3 p4 p5 : point) :
  eye_aspect_ratio [p0; p1; p2; p3; p4; p5] = Ok 0 <->
  p0 = p3 \/ (p1 = p5 /\ p2 = p4).
Proof.
  pose proof (aspect_ratio_eq p0 p1 p2 p3 p4 p5) as H; cbv zeta in H.
  destruct H as [He _].
  pose proof (euclidean_dist_nonneg p1 p5) as HA.
  pose proof (euclidean_dist_nonneg p2 p4) as HB.
  pose proof (euclidean_dist_nonneg p0 p3) as HC.
  split.
  - intros H0.
    assert (Hr : (if Req_dec_T (euclidean_dist p0 p3) 0 then 0
                  else (euclidean_dist p1 p5 + euclidean_dist p2 p4) /
                       (2 * euclidean_dist p0 p3)) = 0).
    { assert (Hinj : forall a b : R, Ok a = Ok b -> a = b)
        by (intros a b Hab; injection Hab; auto).
      apply Hinj. transitivity (eye_aspect_ratio [p0; p1; p2; p3; p4; p5]);
        [ symmetry; exact He | exact H0 ]. }
    destruct (Req_dec_T (euclidean_dist p0 p3) 0) as [Hz | Hnz].
    + left. apply euclidean_dist_zero. exact Hz.
    + right.
      assert (Hsum : euclidean_dist p1 p5 + euclidean_dist p2 p4 = 0).
      { apply Rmult_eq_compat_r with (r := 2 * euclidean_dist p0 p3) in Hr.
        unfold Rdiv in Hr. rewrite Rmult_assoc, Rinv_l, Rmult_1_r, Rmult_0_l in Hr
          by lra.
        exact Hr. }
      split; apply euclidean_dist_zero; lra.
  - intros [H03 | [H15 H24]].
    + subst p3. transitivity
        (@Ok R (if Req_dec_T (euclidean_dist p0 p0) 0 then 0
                else (euclidean_dist p1 p5 + euclidean_dist p2 p4) /
                     (2 * euclidean_dist p0 p0))); [ exact He | ].
      destruct (Req_dec_T (euclidean_dist p0 p0) 0) as [_ | Hnz];
        [ reflexivity | ].
      contradiction Hnz. apply euclidean_dist_same.
    + subst p5 p4.
      transitivity
        (@Ok R (if Req_dec_T (euclidean_dist p0 p3) 0 then 0
                else (euclidean_dist p1 p1 + euclidean_dist p2 p2) /
                     (2 * euclidean_dist p0 p3))); [ exact He | ].
      rewrite !euclidean_dist_same.
      destruct (Req_dec_T (euclidean_dist p0 p3) 0); [ reflexivity | ].
      f_equal. unfold Rdiv. rewrite Rplus_0_l, Rmult_0_l. reflexivity.
Qed.

(** X5: Read from the other corner (points 3, 2, 1, 0, 5, 4) the contour has
    the same ratio. *)
Theorem aspect_ratio_mirror (p0 p1 p2 p3 p4 p5 : point) :
  eye_aspect_ratio [p3; p2; p1; p0; p5; p4] =
  eye_aspect_ratio [p0; p1; p2; p3; p4; p5].
Proof.
  pose proof (aspect_ratio_eq p0 p1 p2 p3 p4 p5) as H; cbv zeta in H.
  pose proof (aspect_ratio_eq p3 p2 p1 p0 p5 p4) as H'; cbv zeta in H'.
  destruct H as [He _], H' as [He' _].
  transitivity
    (@Ok R (if Req_dec_T (euclidean_dist p3 p0) 0 then 0
            else (euclidean_dist p2 p4 + euclidean_dist p1 p5) /
                 (2 * euclidean_dist p3 p0))); [ exact He' | ].
  rewrite (euclidean_dist_sym p3 p0).
  rewrite (Rplus_comm (euclidean_dist p2 p4)).
  symmetry. exact He.
Qed.

End MoreMath.

(** ** From landmarks to the frame's ratios *)

Lemma Qnum_nonneg (v : Q) : 0 <= v -> (0 <= Qnum v)%Z.
Proof. unfold Qle. cbn. intros H. lia. Qed.

Lemma Qnum_nonpos (v : Q) : v <= 0 -> (Qnum v <= 0)%Z.
Proof. unfold Qle. cbn. intros H. lia. Qed.

Lemma py_int_floor (v : Q) : 0 <= v -> py_int v = Qfloor v.
Proof.
  intros H. destruct v as [n d]. unfold py_int, Qfloor. cbn [Qnum Qden].
  apply Z.quot_div_nonneg; [ apply (Qnum_nonneg H) | reflexivity ].
Qed.

Lemma py_int_ceiling (v : Q) : v <= 0 -> py_int v = Qceiling v.
Proof.
  intros H. pose proof (Qnum_nonpos H) as Hn.
  destruct v as [n d]. unfold py_int, Qceiling, Qfloor, Qopp.
  cbn [Qnum Qden] in *.
  rewrite <- (Z.opp_involutive n) at 1.
  rewrite Z.quot_opp_l by discriminate.
  f_equal. apply Z.quot_div_nonneg; [ lia | reflexivity ].
Qed.

(** [int()] truncates toward zero: it is the floor of a non-negative
    number and the ceiling of a non-positive one, so it never moves a
    value by a whole unit nor away from zero. *)
Lemma py_int_truncates (v : Q) :
  (0 <= v -> inject_Z (py_int v) <= v /\ v < inject_Z (py_int v) + 1) /\
  (v <= 0 -> v <= inject_Z (py_int v) /\ inject_Z (py_int v) - 1 < v).
Proof.
  split; intros H.
  - rewrite (py_int_floor H). split; [ apply Qfloor_le | ].
    pose proof (Qlt_floor v) as Hlt.
    rewrite inject_Z_plus in Hlt. exact Hlt.
  - rewrite (py_int_ceiling H). split; [ apply Qle_ceiling | ].
    pose proof (Qceiling_lt v) as Hlt.
    unfold Z.sub in Hlt. rewrite inject_Z_plus in Hlt. exact Hlt.
Qed.

Example py_int_truncates_examples :
  py_int 2.7 = 2%Z /\ py_int (-2.7) = (-2)%Z /\
  inject_Z (py_int 2.7) <= 2.7 /\ -2.7 <= inject_Z (py_int (-2.7)).
Proof.
  split; [ reflexivity | ]. split; [ reflexivity | ].
  split.
  - apply (proj1 (py_int_truncates 2.7)). vm_compute. discriminate.
  - apply (proj2 (py_int_truncates (-2.7))). vm_compute. discriminate.
Qed.

Lemma py_int_within (v : Q) (n : Z) :
  0 <= v -> v <= inject_Z n -> (0 <= py_int v <= n)%Z.
Proof.
  intros H0 Hn. split.
  - rewrite (py_int_floor H0). destruct v as [a d]. unfold Qfloor.
    apply Z.div_pos; [ apply (Qnum_nonneg H0) | reflexivity ].
  - rewrite Zle_Qle. apply Qle_trans with v; [ | exact Hn ].
    rewrite (py_int_floor H0). apply Qfloor_le.
Qed.

Section MorePixels.
Local Open Scope R_scope.

(** X6: A landmark inside the unit square lands inside the frame: its pixel
    coordinates lie between 0 and the width, and 0 and the height. *)
Theorem pixel_in_frame (w h : Z) (l : landmark) :
  (0 <= w)%Z -> (0 <= h)%Z ->
  (0 <= x l)%Q -> (x l <= 1)%Q -> (0 <= y l)%Q -> (y l <= 1)%Q ->
  0 <= fst (pixel w h l) <= IZR w /\ 0 <= snd (pixel w h l) <= IZR h.
Proof.
  intros Hw Hh Hx0 Hx1 Hy0 Hy1.
  assert (Hbound : forall (c : Q) (n : Z),
    (0 <= n)%Z -> (0 <= c)%Q -> (c <= 1)%Q ->
    (0 <= py_int (c * inject_Z n) <= n)%Z).
  { intros c n Hn Hc0 Hc1.
    assert (HnQ : (0 <= inject_Z n)%Q)
      by (change (inject_Z 0 <= inject_Z n)%Q; rewrite <- Zle_Qle; exact Hn).
    apply py_int_within.
    - apply Qmult_le_0_compat; assumption.
    - rewrite <- (Qmult_1_l (inject_Z n)) at 2.
      apply Qmult_le_compat_r; assumption. }
  unfold pixel; cbn [fst snd].
  destruct (Hbound (x l) w Hw Hx0 Hx1) as [Hx Hx'].
  destruct (Hbound (y l) h Hh Hy0 Hy1) as [Hy Hy'].
  repeat split; apply IZR_le; assumption.
Qed.

Lemma pixel_in_frame_witness :
  0 <= fst (pixel 640 480 (mkLandmark 0.5 0.25)) <= 640 /\
  0 <= snd (pixel 640 480 (mkLandmark 0.5 0.25)) <= 480.
Proof.
  apply (@pixel_in_frame 640 480 (mkLandmark 0.5 0.25));
    vm_compute; discriminate.
Defined.

Lemma pixels_raise face w h indices e :
  pixels face w h indices = Raise e -> e = IndexError.
Proof.
  induction indices as [ | i rest IH ]; cbn [pixels]; [ discriminate | ].
  destruct (nth_error face i); [ | intros H; injection H; auto ].
  destruct (pixels face w h rest); [ discriminate | ].
  intros H; injection H as <-. apply IH. reflexivity.
Qed.

Lemma pixels_ok face w h indices :
  Forall (fun i => (i < length face)%nat) indices ->
  exists ps, pixels face w h indices = Ok ps /\ length ps = length indices.
Proof.
  induction 1 as [ | i rest Hi _ IH ]; cbn [pixels].
  - exists []. split; reflexivity.
  - destruct (nth_error face i) as [l | ] eqn:Hl.
    + destruct IH as (ps & -> & Hlen). eexists. split; [ reflexivity | ].
      cbn. rewrite Hlen. reflexivity.
    + apply nth_error_None in Hl. lia.
Qed.

Lemma pixels_missing face w h indices i :
  In i indices -> (length face <= i)%nat ->
  pixels face w h indices = Raise IndexError.
Proof.
  intros Hin Hlen. induction indices as [ | j rest IH ]; [ contradiction | ].
  cbn [pixels]. destruct (nth_error face j) as [l | ] eqn:Hl; [ | reflexivity ].
  destruct Hin as [-> | Hin].
  - apply nth_error_None in Hlen. congruence.
  - rewrite (IH Hin). reflexivity.
Qed.

Lemma aspect_ratio_of_six (ps : list point) :
  length ps = 6%nat ->
  exists r, eye_aspect_ratio ps = Ok r /\ mouth_aspect_ratio ps = Ok r /\ 0 <= r.
Proof.
  destruct ps as [ | p0 [ | p1 [ | p2 [ | p3 [ | p4 [ | p5 [ | p6 rest ] ] ] ] ] ] ];
    try discriminate.
  intros _.
  pose proof (aspect_ratio_eq p0 p1 p2 p3 p4 p5) as H; cbv zeta in H.
  destruct H as [He Hm].
  eexists. split; [ exact He | ]. split; [ exact Hm | ].
  destruct (Req_dec_T (euclidean_dist p0 p3) 0); [ lra | ].
  apply ratio_nonneg; auto; apply euclidean_dist_nonneg.
Qed.

Lemma pixels_contour face w h indices :
  Forall (fun i => (i < length face)%nat) indices ->
  pixels face w h indices = Ok (contour face w h indices).
Proof.
  induction 1 as [ | i rest Hi _ IH ]; cbn [pixels contour map].
  - reflexivity.
  - rewrite (nth_error_nth' face (mkLandmark 0 0) Hi).
    rewrite IH. reflexivity.
Qed.

(** X7: The ratios of a frame: with the 403 landmarks the three index
    lists reach into, the computation returns the mean of the eye ratios
    of the left-eye and the right-eye contour, and the mouth ratio of the
    mouth contour, each contour being the pixels of the landmarks at the
    indices of its list; the three ratios are non-negative and the mean
    lies between the two eye ratios.  With fewer landmarks it raises
    [IndexError]. *)
Theorem frame_ratios_landmarks (face : list landmark) (w h : Z) :
  ((403 <= length face)%nat ->
   exists l r mar,
     eye_aspect_ratio (contour face w h LEFT_EYE) = Ok l /\
     eye_aspect_ratio (contour face w h RIGHT_EYE) = Ok r /\
     mouth_aspect_ratio (contour face w h MOUTH) = Ok mar /\
     frame_ratios face w h = Ok ((l + r) / 2, mar) /\
     0 <= l /\ 0 <= r /\ 0 <= mar /\
     Rmin l r <= (l + r) / 2 <= Rmax l r) /\
  ((length face < 403)%nat -> frame_ratios face w h = Raise IndexError).
Proof.
  split; intros Hlen.
  - assert (Hall : forall indices,
      Forall (fun i => (i <= 402)%nat) indices ->
      Forall (fun i => (i < length face)%nat) indices).
    { intros indices H. eapply Forall_impl; [ | exact H ].
      cbn. intros i Hi. lia. }
    pose proof (@pixels_contour face w h LEFT_EYE
                  (Hall LEFT_EYE ltac:(repeat constructor; lia))) as Hle.
    pose proof (@pixels_contour face w h RIGHT_EYE
                  (Hall RIGHT_EYE ltac:(repeat constructor; lia))) as Hre.
    pose proof (@pixels_contour face w h MOUTH
                  (Hall MOUTH ltac:(repeat constructor; lia))) as Hmo.
    destruct (@aspect_ratio_of_six (contour face w h LEFT_EYE))
      as (l & Hl & _ & Hl0); [ reflexivity | ].
    destruct (@aspect_ratio_of_six (contour face w h RIGHT_EYE))
      as (r & Hr & _ & Hr0); [ reflexivity | ].
    destruct (@aspect_ratio_of_six (contour face w h MOUTH))
      as (mar & _ & Hm & Hm0); [ reflexivity | ].
    exists l, r, mar. unfold frame_ratios.
    rewrite Hle, Hre, Hmo, Hl, Hr, Hm.
    repeat split; try assumption; try lra.
    + unfold Rmin. destruct (Rle_dec l r); lra.
    + unfold Rmax. destruct (Rle_dec l r); lra.
  - unfold frame_ratios.
    assert (Hmouth : pixels face w h MOUTH = Raise IndexError).
    { apply pixels_missing with (i := 402%nat); [ | lia ].
      unfold MOUTH. cbn. auto 10. }
    destruct (pixels face w h LEFT_EYE) as [le | e] eqn:Hle.
    + destruct (pixels face w h RIGHT_EYE) as [re | e] eqn:Hre.
      * rewrite Hmouth. reflexivity.
      * apply pixels_raise in Hre. subst e. reflexivity.
    + apply pixels_raise in Hle. subst e. reflexivity.
Qed.

Lemma euclidean_dist_across x1 x2 y :
  x1 <= x2 -> euclidean_dist (x1, y) (x2, y) = x2 - x1.
Proof.
  intros H. rewrite euclidean_dist_level. apply Rabs_pos_eq. lra.
Qed.

Lemma euclidean_dist_down x y1 y2 :
  y1 <= y2 -> euclidean_dist (x, y1) (x, y2) = y2 - y1.
Proof.
  intros H. rewrite euclidean_dist_upright, Rabs_minus_sym.
  apply Rabs_pos_eq. lra.
Qed.

(** A contour 30 wide and 2 u open at both columns. *)
Lemma box_ratio (u : R) :
  0 <= u ->
  eye_aspect_ratio
    [(10, 50); (20, 50 - u); (30, 50 - u); (40, 50); (30, 50 + u); (20, 50 + u)] =
    Ok ((2 * u + 2 * u) / (2 * 30)) /\
  mouth_aspect_ratio
    [(10, 50); (20, 50 - u); (30, 50 - u); (40, 50); (30, 50 + u); (20, 50 + u)] =
    Ok ((2 * u + 2 * u) / (2 * 30)).
Proof.
  intros Hu.
  pose proof (aspect_ratio_eq (10, 50) (20, 50 - u) (30, 50 - u) (40, 50)
                (30, 50 + u) (20, 50 + u)) as H; cbv zeta in H.
  rewrite (euclidean_dist_across 50 (x1 := 10) (x2 := 40)) in H by lra.
  rewrite !euclidean_dist_down in H by lra.
  replace (40 - 10) with 30 in H by ring.
  replace (50 + u - (50 - u)) with (2 * u) in H by ring.
  destruct (Req_dec_T 30 0) as [H30 | _]; [ lra | ].
  exact H.
Qed.

(** The sample face in a 100 x 100 frame: both eye ratios are 40/60, the
    mouth ratio is 60/60. *)
Lemma frame_ratios_landmarks_witness :
  frame_ratios sample_face 100 100 =
  Ok (((20 + 20) / (2 * 30) + (20 + 20) / (2 * 30)) / 2, (30 + 30) / (2 * 30)).
Proof.
  assert (Hlen : (403 <= length sample_face)%nat)
    by (unfold sample_face; rewrite length_map, length_seq; lia).
  destruct (proj1 (frame_ratios_landmarks sample_face 100 100) Hlen)
    as (l & r & mar & Hl & Hr & Hm & Hfr & _).
  assert (Hle : contour sample_face 100 100 LEFT_EYE =
                [(10, 50); (20, 50 - 10); (30, 50 - 10); (40, 50);
                 (30, 50 + 10); (20, 50 + 10)]).
  { unfold contour, LEFT_EYE, pixel; cbn [map].
    replace (50 - 10) with 40 by ring. replace (50 + 10) with 60 by ring.
    repeat f_equal; vm_compute; reflexivity. }
  assert (Hre : contour sample_face 100 100 RIGHT_EYE =
                [(10, 50); (20, 50 - 10); (30, 50 - 10); (40, 50);
                 (30, 50 + 10); (20, 50 + 10)]).
  { unfold contour, RIGHT_EYE, pixel; cbn [map].
    replace (50 - 10) with 40 by ring. replace (50 + 10) with 60 by ring.
    repeat f_equal; vm_compute; reflexivity. }
  assert (Hmo : contour sample_face 100 100 MOUTH =
                [(10, 50); (20, 50 - 15); (30, 50 - 15); (40, 50);
                 (30, 50 + 15); (20, 50 + 15)]).
  { unfold contour, MOUTH, pixel; cbn [map].
    replace (50 - 15) with 35 by ring. replace (50 + 15) with 65 by ring.
    repeat f_equal; vm_compute; reflexivity. }
  rewrite Hle in Hl. rewrite Hre in Hr. rewrite Hmo in Hm.
  destruct (@box_ratio 10 ltac:(lra)) as [He10 _].
  destruct (@box_ratio 15 ltac:(lra)) as [_ Hm15].
  assert (Hinj : forall a b : R, Ok a = Ok b -> a = b)
    by (intros a b Hab; injection Hab; auto).
  assert (Hlv : l = (2 * 10 + 2 * 10) / (2 * 30))
    by (apply Hinj; rewrite <- Hl; exact He10).
  assert (Hrv : r = (2 * 10 + 2 * 10) / (2 * 30))
    by (apply Hinj; rewrite <- Hr; exact He10).
  assert (Hmv : mar = (2 * 15 + 2 * 15) / (2 * 30))
    by (apply Hinj; rewrite <- Hm; exact Hm15).
  rewrite Hfr, Hlv, Hrv, Hmv.
  replace (2 * 10) with 20 by ring. replace (2 * 15) with 30 by ring.
  reflexivity.
Defined.

(** Too few landmarks. *)
Example frame_ratios_short_face :
  frame_ratios (repeat (mkLandmark 0.5 0.5) 400) 640 480 = Raise IndexError.
Proof.
  unfold frame_ratios.
  rewrite (@pixels_missing (repeat (mkLandmark 0.5 0.5) 400) 640 480 MOUTH 402)
    by (first [ rewrite repeat_length; lia | cbn; auto 10 ]).
  destruct (pixels _ _ _ LEFT_EYE) as [le | e] eqn:Hle.
  - destruct (pixels _ _ _ RIGHT_EYE) as [re | e] eqn:Hre; [ reflexivity | ].
    apply pixels_raise in Hre. subst e. reflexivity.
  - apply pixels_raise in Hle. subst e. reflexivity.
Qed.

End MorePixels.

(** ** The countdown shown while calibrating *)

Lemma py_int_le_0 (v : Q) : (py_int v <= 0)%Z <-> v < 1.
Proof.
  destruct (Qlt_le_dec v 0) as [Hneg | Hpos].
  - apply Qlt_le_weak in Hneg.
    destruct (proj2 (py_int_truncates v) Hneg) as [_ _].
    split; intros _.
    + apply Qle_lt_trans with 0; [ exact Hneg | reflexivity ].
    + rewrite (py_int_ceiling Hneg).
      pose proof (Qnum_nonpos Hneg) as Hn.
      destruct v as [n d]. unfold Qceiling, Qfloor, Qopp. cbn [Qnum Qden] in *.
      assert (0 <= - n / Z.pos d)%Z by (apply Z.div_pos; lia). lia.
  - destruct (proj1 (py_int_truncates v) Hpos) as [Hlo Hhi].
    split; intros H.
    + apply Qlt_le_trans with (inject_Z (py_int v) + 1); [ exact Hhi | ].
      rewrite Zle_Qle in H. change (inject_Z 0) with 0 in H.
      apply Qle_trans with (0 + 1); [ | apply Qle_refl ].
      apply Qplus_le_l. exact H.
    + assert (Hlt : inject_Z (py_int v) < inject_Z 1)
        by (apply Qle_lt_trans with v; assumption).
      rewrite <- Zlt_Qlt in Hlt. lia.
Qed.

(** X8: The overlay's countdown is never negative; from the calibration
    start on it is at most 5; and it shows 0 exactly when more than 4 s
    have passed, so it reaches 0 a second before calibration completes. *)
Theorem countdown_range (calibration_start now : Q) :
  (0 <= countdown calibration_start now)%Z /\
  (calibration_start <= now -> (countdown calibration_start now <= 5)%Z) /\
  (countdown calibration_start now = 0%Z <-> 4 < now - calibration_start).
Proof.
  unfold countdown, remaining. split; [ apply Z.le_max_l | ]. split.
  - intros Hle. apply Z.max_lub; [ discriminate | ].
    destruct (Qlt_le_dec (CALIBRATION_TIME - (now - calibration_start)) 0)
      as [Hneg | Hpos].
    + apply Qlt_le_weak in Hneg.
      apply Z.le_trans with 0%Z; [ | discriminate ].
      apply py_int_le_0. apply Qle_lt_trans with 0; [ exact Hneg | reflexivity ].
    + apply (@py_int_within _ 5 Hpos).
      unfold CALIBRATION_TIME in *. change (inject_Z 5) with 5. lra.
  - rewrite Z.max_l_iff, py_int_le_0. unfold CALIBRATION_TIME. split; intros H; lra.
Qed.

Lemma countdown_range_witness :
  countdown 100 100 = 5%Z /\ countdown 100 103.2 = 1%Z /\
  (countdown 100 104.5 = 0%Z).
Proof.
  split; [ reflexivity | ]. split; [ reflexivity | ].
  apply (proj2 (proj2 (countdown_range 100 104.5))). vm_compute. reflexivity.
Defined.

(** ** Exceptions of the main loop *)

(** What a frame without a face can change: the loss episode, the state
    (to DANGER only) and the alarm bookkeeping. *)
Lemma handle_face_lost_total w :
  exists w',
    handle_face_lost w = Ok (tt, w') /\
    clock w' = clock w /\ (ticks w < ticks w')%nat /\
    (face_lost_start (self w') = face_lost_start (self w) \/
     face_lost_start (self w) = None /\
     face_lost_start (self w') = Some (now_of w)) /\
    (state (self w') = state (self w) \/ state (self w') = DANGER) /\
    ear_threshold (self w') = ear_threshold (self w) /\
    blink_timestamps (self w') = blink_timestamps (self w) /\
    eyes_closed_prev (self w') = eyes_closed_prev (self w) /\
    eye_close_start (self w') = eye_close_start (self w) /\
    state_change_time (self w') = state_change_time (self w) /\
    calibration_values (self w') = calibration_values (self w) /\
    calibration_start (self w') = calibration_start (self w).
Proof.
  rewrite handle_face_lost_eq.
  destruct (face_lost_start (self w)) as [since | ] eqn:Hs.
  - destruct (Qgeb _ _).
    + destruct (trigger_alarm_shape
                  (with_self (set_state DANGER (self w)) (tick w)))
        as (bs & t & ->).
      eexists; split; [ reflexivity | ]. cbn. rewrite Hs. repeat split; auto.
    + eexists; split; [ reflexivity | ]. cbn. rewrite Hs. repeat split; auto.
  - eexists; split; [ reflexivity | ]. cbn. repeat split; auto.
Qed.

Lemma calibrate_total w ear :
  exists w',
    calibrate ear w = Ok (tt, w') /\
    clock w' = clock w /\ (ticks w < ticks w')%nat /\
    face_lost_start (self w') = face_lost_start (self w) /\
    blink_timestamps (self w') = blink_timestamps (self w) /\
    eyes_closed_prev (self w') = eyes_closed_prev (self w) /\
    eye_close_start (self w') = eye_close_start (self w) /\
    (state (self w') = state (self w) /\
     ear_threshold (self w') = ear_threshold (self w) \/
     state (self w') = NORMAL /\ exists thr, ear_threshold (self w') = Some thr).
Proof.
  rewrite calibrate_eq. cbv zeta.
  destruct (Qgeb _ _); (eexists; split; [ reflexivity | ]); cbn.
  - repeat split; auto. right. split; [ reflexivity | ]. eexists; reflexivity.
  - repeat split; auto.
Qed.

(** A frame with a face in a state out of CALIBRATING with the threshold
    unset. *)
Lemma face_frame_type_error w ear mar :
  state (self w) <> CALIBRATING -> ear_threshold (self w) = None ->
  main_loop_body (Face ear mar) w = Raise TypeError.
Proof.
  intros Hst Hthr. rewrite main_loop_body_eq. cbv zeta.
  apply state_eqb_neq in Hst. rewrite Hst.
  rewrite update_state_unset by exact Hthr. reflexivity.
Qed.

(** X9: A frame raises exactly when it carries a face while the state has
    left CALIBRATING with the threshold still unset, and then the
    exception is [TypeError]: [calibrate] never divides by zero (it has
    appended a sample before it divides) and nothing else can fail. *)
Theorem main_loop_body_raises (w : World) (f : frame) (e : exn) :
  main_loop_body f w = Raise e <->
  e = TypeError /\
  state (self w) <> CALIBRATING /\ ear_threshold (self w) = None /\
  exists ear mar, f = Face ear mar.
Proof.
  rewrite main_loop_body_eq. destruct f as [ | ear mar ].
  - destruct (handle_face_lost_total w) as (w' & -> & _).
    split; [ discriminate | ]. intros (_ & _ & _ & ear & mar & H). discriminate.
  - cbv zeta. destruct (state_eqb (state (self w)) CALIBRATING) eqn:Hst.
    + apply state_eqb_eq in Hst.
      destruct (calibrate_total
                  (tick (with_self (set_face_lost_start None (self w)) w)) ear)
        as (w' & -> & _).
      split; [ discriminate | ]. intros (_ & Hne & _). contradiction.
    + apply state_eqb_neq in Hst.
      destruct (ear_threshold (self w)) as [thr | ] eqn:Hthr.
      * destruct (@update_state_calibrated
                    (with_self (set_face_lost_start None (self w)) w) ear mar thr)
          as (n & w' & -> & _); auto.
        split; [ discriminate | ]. intros (_ & _ & H & _). discriminate.
      * rewrite update_state_unset by exact Hthr.
        split.
        -- intros H; injection H as <-. repeat split; auto.
           exists ear, mar. reflexivity.
        -- intros (-> & _). reflexivity.
Qed.

Lemma update_state_calibration_fields w ear mar n w' :
  update_state ear mar w = Ok (n, w') ->
  calibration_values (self w') = calibration_values (self w) /\
  calibration_start (self w') = calibration_start (self w).
Proof.
  destruct (ear_threshold (self w)) as [thr | ] eqn:Hthr.
  - rewrite (update_state_eq _ _ _ Hthr). cbv zeta.
    destruct (microsleep_test _ _).
    + destruct (trigger_alarm_shape
                  (with_self (set_state DANGER
                     (trackers (Qltb ear thr) (now_of w) (self w))) (tick w)))
        as (bs & t & ->).
      intros H; injection H as _ <-. cbn.
      split; split_blocks.
    + intros H; injection H as _ <-. cbn [self with_self tick].
      split; split_blocks.
  - rewrite (update_state_unset _ _ _ Hthr). discriminate.
Qed.

(** X10: Once calibrated, no sequence of frames raises an exception, returns
    to CALIBRATING, changes the threshold or touches the calibration
    samples. *)
Theorem calibrated_runs_never_raise (frames : list frame) (w : World) (thr : Q) :
  ear_threshold (self w) = Some thr -> state (self w) <> CALIBRATING ->
  exists w',
    main_loop frames w = Ok (tt, w') /\
    ear_threshold (self w') = Some thr /\
    state (self w') <> CALIBRATING /\
    calibration_values (self w') = calibration_values (self w) /\
    calibration_start (self w') = calibration_start (self w).
Proof.
  revert w. induction frames as [ | f rest IH ]; intros w Hthr Hst.
  - exists w. auto.
  - rewrite main_loop_cons.
    destruct (main_loop_body_calibrated w f Hthr Hst) as (w1 & Hf & _ & Ht1 & Hs1).
    rewrite Hf. destruct (IH w1 Ht1 Hs1) as (w' & Hrun & Ht & Hs & Hv & Hc).
    exists w'. split; [ exact Hrun | ]. split; [ exact Ht | ].
    split; [ exact Hs | ].
    assert (Hfields : calibration_values (self w1) = calibration_values (self w) /\
                      calibration_start (self w1) = calibration_start (self w)).
    { rewrite main_loop_body_eq in Hf. destruct f as [ | ear mar ].
      - destruct (handle_face_lost_total w) as (w2 & Hh & Hrest).
        rewrite Hh in Hf. injection Hf as <-. split; apply Hrest.
      - cbv zeta in Hf. apply state_eqb_neq in Hst. rewrite Hst in Hf.
        destruct (update_state ear mar _) as [[n w2] | e] eqn:Hup; [ | discriminate ].
        injection Hf as <-.
        apply update_state_calibration_fields in Hup. exact Hup. }
    destruct Hfields as [Hv1 Hc1]. split; congruence.
Qed.

(** A calibrated monitor through a loss of the face and a closure. *)
Lemma calibrated_runs_never_raise_witness :
  let m := mkMonitor [] false None None NORMAL 10 (Some 0.21) [0.3] 4 0.0 in
  let w := mkWorld (clock_of [11; 14; 14; 15; 18; 18]) 0 [] m in
  exists w',
    main_loop [NoFace; NoFace; Face 0.1 0.3; Face 0.1 0.7] w = Ok (tt, w') /\
    ear_threshold (self w') = Some 0.21.
Proof.
  intros m w.
  assert (Hst : state (self w) <> CALIBRATING) by discriminate.
  destruct (@calibrated_runs_never_raise
              [NoFace; NoFace; Face 0.1 0.3; Face 0.1 0.7] w 0.21 eq_refl Hst)
    as (w' & Hrun & Ht & _).
  exists w'. split; assumption.
Defined.

(** X11: The dead end behind the exception: when the state has left
    CALIBRATING with the threshold unset, no later frame sets it.  A run
    that returns consisted of frames without a face only, and the first
    frame with a face raises [TypeError]. *)
Theorem uncalibrated_dead_end (w : World) :
  ear_threshold (self w) = None -> state (self w) <> CALIBRATING ->
  (forall frames w',
      main_loop frames w = Ok (tt, w') ->
      frames = no_faces (length frames) /\
      ear_threshold (self w') = None /\ state (self w') <> CALIBRATING) /\
  (forall n ear mar rest,
      main_loop (no_faces n ++ Face ear mar :: rest) w = Raise TypeError).
Proof.
  intros Hthr Hst.
  assert (Hstep : forall w0,
    ear_threshold (self w0) = None -> state (self w0) <> CALIBRATING ->
    exists w1, main_loop_body NoFace w0 = Ok (tt, w1) /\
               ear_threshold (self w1) = None /\ state (self w1) <> CALIBRATING).
  { intros w0 Ht0 Hs0. rewrite main_loop_body_eq.
    destruct (handle_face_lost_total w0)
      as (w1 & Hh & _ & _ & _ & Hs1 & Ht1 & _).
    exists w1. split; [ exact Hh | ]. split; [ congruence | ].
    destruct Hs1 as [-> | ->]; [ exact Hs0 | discriminate ]. }
  split.
  - intros frames. revert w Hthr Hst.
    induction frames as [ | f rest IH ]; intros w Hthr Hst w'.
    + intros H; injection H as <-. auto.
    + rewrite main_loop_cons. destruct f as [ | ear mar ].
      * destruct (Hstep w Hthr Hst) as (w1 & -> & Ht1 & Hs1).
        intros Hrun. destruct (IH w1 Ht1 Hs1 w' Hrun) as (Hfr & Ht & Hs).
        split; [ | auto ]. cbn [length no_faces repeat].
        unfold no_faces in Hfr. rewrite <- Hfr. reflexivity.
      * rewrite (@face_frame_type_error w ear mar Hst Hthr). discriminate.
  - intros n. revert w Hthr Hst.
    induction n as [ | n IH ]; intros w Hthr Hst ear mar rest.
    + cbn [no_faces repeat app]. rewrite main_loop_cons.
      rewrite (@face_frame_type_error w ear mar Hst Hthr). reflexivity.
    + cbn [no_faces repeat app]. rewrite main_loop_cons.
      destruct (Hstep w Hthr Hst) as (w1 & -> & Ht1 & Hs1).
      apply (IH w1 Ht1 Hs1).
Qed.

(** The state reached when the face is lost for 2.5 s before calibration
    has completed. *)
Lemma uncalibrated_dead_end_witness :
  let m := mkMonitor [] false None (Some 101) DANGER 100 None [] 100 103.5 in
  let w := mkWorld (clock_of [104; 104; 105]) 0 [103.5] m in
  main_loop [NoFace; Face 0.3 0.3; Face 0.3 0.3] w = Raise TypeError.
Proof.
  intros m w.
  assert (Hst : state (self w) <> CALIBRATING) by discriminate.
  exact (proj2 (@uncalibrated_dead_end w eq_refl Hst) 1%nat 0.3 0.3 [Face 0.3 0.3]).
Defined.

(** X12: Frames that all carry a face never raise, whatever the clock: the
    run ends either still CALIBRATING with the threshold unset or out of
    CALIBRATING with the threshold set, and with no loss episode open. *)
Theorem faces_never_raise (clk : nat -> Q) (samples : list (Q * Q)) :
  exists w,
    program (faces samples) (boot clk) = Ok (tt, w) /\
    (state (self w) = CALIBRATING /\ ear_threshold (self w) = None \/
     state (self w) <> CALIBRATING /\ exists thr, ear_threshold (self w) = Some thr) /\
    (samples <> [] -> face_lost_start (self w) = None).
Proof.
  rewrite program_eq.
  assert (Hgen : forall samples w,
    (state (self w) = CALIBRATING /\ ear_threshold (self w) = None \/
     state (self w) <> CALIBRATING /\ exists thr, ear_threshold (self w) = Some thr) ->
    exists w',
      main_loop (faces samples) w = Ok (tt, w') /\
      (state (self w') = CALIBRATING /\ ear_threshold (self w') = None \/
       state (self w') <> CALIBRATING /\
       exists thr, ear_threshold (self w') = Some thr) /\
      (samples <> [] -> face_lost_start (self w') = None)).
  { clear samples. intros samples.
    induction samples as [ | [ear mar] rest IH ]; intros w Hg.
    - exists w. split; [ reflexivity | ]. split; [ exact Hg | ].
      intros H; contradiction.
    - unfold faces; cbn [map fst snd]; fold (faces rest).
      rewrite main_loop_cons.
      assert (Hone : exists w1,
        main_loop_body (Face ear mar) w = Ok (tt, w1) /\
        (state (self w1) = CALIBRATING /\ ear_threshold (self w1) = None \/
         state (self w1) <> CALIBRATING /\
         exists thr, ear_threshold (self w1) = Some thr) /\
        face_lost_start (self w1) = None).
      { rewrite main_loop_body_eq. cbv zeta.
        destruct Hg as [[Hs Ht] | [Hs (thr & Ht)]].
        - apply state_eqb_eq in Hs. rewrite Hs. apply state_eqb_eq in Hs.
          destruct (calibrate_total
                      (tick (with_self (set_face_lost_start None (self w)) w)) ear)
            as (w1 & -> & _ & _ & Hf & _ & _ & _ & Hres).
          exists w1. split; [ reflexivity | ]. cbn in Hf, Hres.
          split; [ | exact Hf ].
          destruct Hres as [[Hs1 Ht1] | [Hs1 Ht1]].
          + left. split; congruence.
          + right. split; [ rewrite Hs1; discriminate | exact Ht1 ].
        - apply state_eqb_neq in Hs. rewrite Hs. apply state_eqb_neq in Hs.
          destruct (@update_state_calibrated
                      (with_self (set_face_lost_start None (self w)) w) ear mar thr)
            as (n & w1 & -> & _ & Ht1 & Hs1 & Hf); auto.
          exists w1. split; [ reflexivity | ]. split; [ | exact Hf ].
          right. split; [ exact Hs1 | ]. exists thr. exact Ht1. }
      destruct Hone as (w1 & -> & Hg1 & Hf1).
      destruct (IH w1 Hg1) as (w' & Hrun & Hg' & Hf').
      exists w'. split; [ exact Hrun | ]. split; [ exact Hg' | ].
      intros _. destruct rest as [ | s rest' ].
      + cbn in Hrun. injection Hrun as <-. exact Hf1.
      + apply Hf'. discriminate. }
  match goal with |- context [main_loop _ ?w0] =>
    destruct (Hgen samples w0) as (w' & Hrun & Hg & Hf) end.
  - left. split; reflexivity.
  - exists w'. repeat split; auto.
Qed.

(** ** The threshold that calibration derives *)

Lemma fold_left_Qplus_bounds lo hi vals : forall acc,
  Forall (fun v => lo <= v /\ v <= hi) vals ->
  acc + inject_Z (Z.of_nat (length vals)) * lo <= fold_left Qplus vals acc /\
  fold_left Qplus vals acc <= acc + inject_Z (Z.of_nat (length vals)) * hi.
Proof.
  induction vals as [ | v rest IH ]; intros acc Hall.
  - cbn [fold_left length Z.of_nat]. change (inject_Z 0) with 0. split; lra.
  - inversion Hall as [ | ? ? [Hlo Hhi] Hrest ]; subst.
    cbn [fold_left length].
    destruct (IH (acc + v) Hrest) as [IHlo IHhi].
    rewrite Nat2Z.inj_succ. unfold Z.succ. rewrite inject_Z_plus.
    set (k := inject_Z (Z.of_nat (length rest))) in *.
    change (inject_Z 1) with 1.
    split.
    + apply Qle_trans with (acc + v + k * lo); [ | exact IHlo ].
      setoid_replace ((k + 1) * lo) with (k * lo + lo) by ring. lra.
    + apply Qle_trans with (acc + v + k * hi); [ exact IHhi | ].
      setoid_replace ((k + 1) * hi) with (k * hi + hi) by ring. lra.
Qed.

Lemma mean_bounds lo hi vals :
  vals <> [] ->
  Forall (fun v => lo <= v /\ v <= hi) vals ->
  lo <= py_sum vals / inject_Z (Z.of_nat (length vals)) /\
  py_sum vals / inject_Z (Z.of_nat (length vals)) <= hi.
Proof.
  intros Hne Hall.
  destruct (fold_left_Qplus_bounds 0 Hall) as [Hlo Hhi].
  fold (py_sum vals) in Hlo, Hhi.
  assert (Hpos : 0 < inject_Z (Z.of_nat (length vals))).
  { change 0 with (inject_Z 0). rewrite <- Zlt_Qlt.
    destruct vals; [ contradiction | cbn [length]; lia ]. }
  set (k := inject_Z (Z.of_nat (length vals))) in *.
  split.
  - apply Qle_shift_div_l; [ exact Hpos | ].
    setoid_replace (lo * k) with (k * lo) by ring. lra.
  - apply Qle_shift_div_r; [ exact Hpos | ].
    setoid_replace (hi * k) with (k * hi) by ring. lra.
Qed.

(** X13: The threshold lies between 0.7 times the smallest and 0.7 times the
    largest sample: when every collected sample, the completing one
    included, is within [lo, hi], the completed calibration sets a
    threshold within [0.7 lo, 0.7 hi]. *)
Theorem calibrate_threshold_between (w : World) (ear lo hi : Q) :
  CALIBRATION_TIME <= now_of w - calibration_start (self w) ->
  Forall (fun v => lo <= v /\ v <= hi) (calibration_values (self w) ++ [ear]) ->
  exists w' thr,
    calibrate ear w = Ok (tt, w') /\
    ear_threshold (self w') = Some thr /\
    0.7 * lo <= thr /\ thr <= 0.7 * hi.
Proof.
  intros Hdue Hall. rewrite calibrate_eq. cbv zeta.
  apply Qgeb_true in Hdue. rewrite Hdue.
  eexists; eexists. split; [ reflexivity | ]. cbn. split; [ reflexivity | ].
  assert (Hne : calibration_values (self w) ++ [ear] <> [])
    by (destruct (calibration_values (self w)); discriminate).
  destruct (mean_bounds Hne Hall) as [Hlo Hhi].
  set (mean := py_sum (calibration_values (self w) ++ [ear]) /
               inject_Z (Z.of_nat (length (calibration_values (self w) ++ [ear])))) in *.
  split; lra.
Qed.

Lemma calibrate_threshold_between_witness :
  let m := mkMonitor [] false None None CALIBRATING 100 None [0.28; 0.33] 100 0.0 in
  let w := mkWorld (clock_of [105; 105]) 0 [] m in
  exists w' thr,
    calibrate 0.3 w = Ok (tt, w') /\
    ear_threshold (self w') = Some thr /\
    0.7 * 0.28 <= thr /\ thr <= 0.7 * 0.33.
Proof.
  intros m w.
  apply (@calibrate_threshold_between w 0.3 0.28 0.33).
  - vm_compute. discriminate.
  - repeat constructor; vm_compute; discriminate.
Defined.

(** ** More on the alarm gate *)

Lemma main_loop_alarm_steps (P : World -> Prop) :
  (forall w w', P w -> alarm_step w w' -> P w') ->
  forall frames w w', P w -> main_loop frames w = Ok (tt, w') -> P w'.
Proof.
  intros Hstep. induction frames as [ | f rest IH ]; intros w w' HP.
  - intros H; injection H as <-. exact HP.
  - rewrite main_loop_cons.
    destruct (main_loop_body f w) as [[[] w1] | e] eqn:Hf; [ | discriminate ].
    apply IH. apply (Hstep w w1 HP).
    apply main_loop_body_step with (f := f). exact Hf.
Qed.

Lemma spaced_span l : spaced l ->
  forall d i a b,
    nth_error l i = Some a -> nth_error l (i + S d) = Some b ->
    inject_Z (Z.of_nat (S d)) * ALARM_COOLDOWN < b - a.
Proof.
  intros Hsp. induction d as [ | d IH ]; intros i a b Ha Hb.
  - assert (H : ALARM_COOLDOWN < b - a)
      by (apply (Hsp i (i + 1)%nat a b); [ lia | exact Ha | exact Hb ]).
    change (inject_Z (Z.of_nat 1)) with 1.
    unfold ALARM_COOLDOWN in *. lra.
  - destruct (nth_error l (i + S d)) as [c | ] eqn:Hc.
    + specialize (IH i a c Ha Hc).
      assert (H : ALARM_COOLDOWN < b - c)
        by (apply (Hsp (i + S d)%nat (i + S (S d))%nat c b);
            [ lia | exact Hc | exact Hb ]).
      rewrite Nat2Z.inj_succ. unfold Z.succ. rewrite inject_Z_plus.
      set (k := inject_Z (Z.of_nat (S d))) in *.
      change (inject_Z 1) with 1. unfold ALARM_COOLDOWN in *.
      setoid_replace ((k + 1) * 1.0) with (k * 1.0 + 1) by ring. lra.
    + apply nth_error_None in Hc.
      assert (Hlt : (i + S (S d) < length l)%nat)
        by (apply nth_error_Some; congruence).
      lia.
Qed.

(** X14: The beep rate: in any run of the program, the beep that comes k
    places after another comes more than k seconds after it; n beeps in
    a row take more than n - 1 seconds. *)
Theorem beeps_rate (clk : nat -> Q) (frames : list frame) (w : World) :
  program frames (boot clk) = Ok (tt, w) ->
  forall i k a b,
    nth_error (beeps w) i = Some a ->
    nth_error (beeps w) (i + S k) = Some b ->
    inject_Z (Z.of_nat (S k)) < b - a.
Proof.
  rewrite program_eq. intros Hrun i k a b Ha Hb.
  assert (Hinv : alarm_inv w).
  { apply (@main_loop_alarm_steps alarm_inv alarm_step_inv frames) in Hrun;
      [ exact Hrun | ].
    split; [ apply spaced_nil | constructor ]. }
  pose proof (spaced_span (proj1 Hinv) k i Ha Hb) as H.
  unfold ALARM_COOLDOWN in H.
  setoid_replace (inject_Z (Z.of_nat (S k)) * 1.0)
    with (inject_Z (Z.of_nat (S k))) in H by ring.
  exact H.
Qed.

(** No face from 101 on: beeps at 103 and 104.5. *)
Lemma beeps_rate_witness :
  let clk := clock_of [100; 100; 101; 103; 103; 104.5; 104.5] in
  exists w,
    program [NoFace; NoFace; NoFace] (boot clk) = Ok (tt, w) /\
    beeps w = [103; 104.5] /\ inject_Z 1 < 104.5 - 103.
Proof.
  intros clk. eexists.
  assert (Hrun : program [NoFace; NoFace; NoFace] (boot clk) =
                 Ok (tt, mkWorld clk 7 [103; 104.5]
                           (mkMonitor [] false None (Some 101) DANGER 100 None []
                              100 104.5)))
    by (vm_compute; reflexivity).
  split; [ exact Hrun | ]. split; [ reflexivity | ].
  apply (@beeps_rate clk [NoFace; NoFace; NoFace] _ Hrun 0%nat 0%nat 103 104.5);
    reflexivity.
Defined.

Lemma alarm_step_book w w' : alarm_book w -> alarm_step w w' -> alarm_book w'.
Proof.
  intros [Hlast Hall] [[Hb Hl] | (now & Hgap & Hb & Hl)]; unfold alarm_book.
  - rewrite Hb, Hl. split; assumption.
  - rewrite Hb, Hl, last_last. split; [ reflexivity | ].
    apply Forall_app. split; [ exact Hall | ].
    constructor; [ | constructor ].
    assert (H0 : 0 <= last_alarm_time (self w)).
    { rewrite Hlast. destruct (beeps w) as [ | b0 bs ] eqn:Hbs.
      - cbn. discriminate.
      - assert (Hin : In (last (b0 :: bs) 0.0) (b0 :: bs)).
        { destruct (exists_last (l := b0 :: bs)) as (l' & z & Hz);
            [ discriminate | ].
          rewrite Hz, last_last. apply in_or_app. right. left. reflexivity. }
        rewrite Forall_forall in Hall. specialize (Hall _ Hin).
        unfold ALARM_COOLDOWN in Hall. lra. }
    unfold ALARM_COOLDOWN in *. lra.
Qed.

(** X15: The gate's bookkeeping in any run of the program: the last-fired
    instant is that of the most recent beep (0.0 before the first), and
    no beep is ever started at a clock reading of 1.0 or less, the first
    request being measured against the initial 0.0. *)
Theorem program_alarm_book (clk : nat -> Q) (frames : list frame) (w : World) :
  program frames (boot clk) = Ok (tt, w) ->
  last_alarm_time (self w) = last (beeps w) 0.0 /\
  Forall (fun b => ALARM_COOLDOWN < b) (beeps w).
Proof.
  rewrite program_eq. intros Hrun.
  apply (@main_loop_alarm_steps alarm_book alarm_step_book frames) in Hrun;
    [ exact Hrun | ].
  split; [ reflexivity | constructor ].
Qed.

(** A clock near zero: the face is lost from -2 to 0.5.  DANGER is
    raised at 0.5, but the request is measured against the initial 0.0
    and dropped. *)
Lemma program_alarm_book_witness :
  let clk := clock_of [-3; -3; -2; 0.5; 0.5] in
  exists w,
    program [NoFace; NoFace] (boot clk) = Ok (tt, w) /\
    state (self w) = DANGER /\ beeps w = [] /\ last_alarm_time (self w) = 0.0.
Proof.
  intros clk. eexists.
  assert (Hrun : program [NoFace; NoFace] (boot clk) =
                 Ok (tt, mkWorld clk 5 []
                           (mkMonitor [] false None (Some (-2)) DANGER (-3) None []
                              (-3) 0.0)))
    by (vm_compute; reflexivity).
  split; [ exact Hrun | ]. split; [ reflexivity | ]. split; [ reflexivity | ].
  exact (proj1 (@program_alarm_book clk [NoFace; NoFace] _ Hrun)).
Defined.

(** ** The emergency branch *)

(** X16: A closure episode that, after the tracker blocks of this frame,
    started at a non-zero instant at least 2.0 s ago: the state is DANGER
    on this very frame whatever the hold timer says, the alarm is
    requested, the hold timer's reference instant is left as it was, and
    the blink rate is returned. *)
Theorem microsleep_fires (w : World) (ear mar thr since : Q) :
  ear_threshold (self w) = Some thr ->
  let now := now_of w in
  let m1 := trackers (Qltb ear thr) now (self w) in
  eye_close_start m1 = Some since -> ~ since == 0 ->
  MICROSLEEP_TIME <= now - since ->
  exists w',
    trigger_alarm (with_self (set_state DANGER m1) (tick w)) = Ok (tt, w') /\
    update_state ear mar w = Ok (length (blink_timestamps m1), w') /\
    state (self w') = DANGER /\
    state_change_time (self w') = state_change_time (self w) /\
    (ALARM_COOLDOWN < clock w (S (ticks w)) - last_alarm_time (self w) ->
     beeps w' = beeps w ++ [clock w (S (ticks w))]).
Proof.
  intros Hthr now m1 Hs Hnz Hdur.
  destruct (@microsleep_override w ear mar thr since Hthr Hs Hnz Hdur)
    as (w' & Htr & Hrun & Hst & Hc).
  exists w'. repeat split; try assumption.
  intros Hgap.
  assert (Hcond : Qgtb (now_of (with_self (set_state DANGER m1) (tick w)) -
                        last_alarm_time (self (with_self (set_state DANGER m1) (tick w))))
                       ALARM_COOLDOWN = true).
  { apply Qgtb_true. unfold now_of.
    cbn [clock ticks beeps self with_self tick set_state last_alarm_time].
    fold (last_alarm_time m1). unfold m1. rewrite trackers_last_alarm. exact Hgap. }
  pose proof (trigger_alarm_eq (with_self (set_state DANGER m1) (tick w))) as Heq.
  rewrite Hcond in Heq.
  match type of Heq with
  | _ = ?r => assert (Hw : Ok (tt, w') = r) by (rewrite <- Htr; exact Heq)
  end.
  injection Hw as ->. reflexivity.
Qed.

(** Eyes closed since 10.5, read at 12.5: DANGER and a beep, the hold
    timer left where it was. *)
Lemma microsleep_fires_witness :
  let w := mkWorld (clock_of [12.5; 12.5]) 0 [] (eyes_closed_since 10.5) in
  exists w',
    update_state 0.15 0.3 w = Ok (1%nat, w') /\
    state (self w') = DANGER /\ state_change_time (self w') = 10.5 /\
    beeps w' = [12.5].
Proof.
  intros w.
  assert (Hnz : ~ 10.5 == 0) by (vm_compute; discriminate).
  assert (Hdur : MICROSLEEP_TIME <= now_of w - 10.5) by (vm_compute; discriminate).
  destruct (@microsleep_fires w 0.15 0.3 0.21 10.5 eq_refl eq_refl Hnz Hdur)
    as (w' & _ & Hrun & Hs & Hc & Hbeep).
  exists w'. split; [ exact Hrun | ]. split; [ exact Hs | ].
  split; [ exact Hc | ]. apply Hbeep. vm_compute. reflexivity.
Defined.

(** X17: Without a closure of at least 2.0 s there is no emergency: when the
    eyes are open on this frame, or closed for less than 2.0 s,
    [update_state] requests no alarm and can only move the state between
    NORMAL and DROWSY or leave it. *)
Theorem no_emergency_before_two_seconds (w : World) (ear mar thr : Q) :
  ear_threshold (self w) = Some thr ->
  let now := now_of w in
  let m1 := trackers (Qltb ear thr) now (self w) in
  (thr <= ear \/
   exists since, eye_close_start m1 = Some since /\ now - since < MICROSLEEP_TIME) ->
  exists n w',
    update_state ear mar w = Ok (n, w') /\
    beeps w' = beeps w /\ ticks w' = S (ticks w) /\
    last_alarm_time (self w') = last_alarm_time (self w) /\
    (state (self w') = state (self w) \/
     state (self w') = NORMAL \/ state (self w') = DROWSY).
Proof.
  intros Hthr now m1 Hshort.
  assert (Ht : microsleep_test now m1 = false).
  { destruct Hshort as [Hopen | (since & Hs & Hdur)].
    - assert (Hc : Qltb ear thr = false).
      { unfold Qltb. apply negb_false_iff. apply Qle_bool_iff. exact Hopen. }
      unfold m1. rewrite Hc. reflexivity.
    - unfold microsleep_test. rewrite Hs.
      destruct (Qeq_bool since 0); [ reflexivity | ].
      apply Qgeb_false. exact Hdur. }
  pose proof (@update_state_calm w ear mar thr Hthr Ht) as Hrun.
  cbv zeta in Hrun. rewrite Hrun.
  eexists; eexists. split; [ reflexivity | ].
  cbn [beeps ticks self with_self tick].
  rewrite hold_or_commit_last_alarm, trackers_last_alarm.
  repeat split.
  match goal with |- context [hold_or_commit ?s ?t ?m] =>
    destruct (hold_or_commit_state s t m) as [-> | ->] end.
  - left. apply trackers_state.
  - right. match goal with |- context [candidate_state ?n ?x] =>
      destruct (candidate_state_cases n x) as [-> | ->] end; auto.
Qed.

Lemma no_emergency_before_two_seconds_witness :
  let w := mkWorld (clock_of [12.4]) 0 [] (eyes_closed_since 10.5) in
  exists n w',
    update_state 0.15 0.3 w = Ok (n, w') /\ beeps w' = [] /\
    state (self w') = NORMAL.
Proof.
  intros w.
  assert (Hshort : 0.21 <= 0.15 \/
    exists since,
      eye_close_start (trackers (Qltb 0.15 0.21) (now_of w) (self w)) = Some since /\
      now_of w - since < MICROSLEEP_TIME).
  { right. exists 10.5. split; [ reflexivity | vm_compute; reflexivity ]. }
  destruct (@no_emergency_before_two_seconds w 0.15 0.3 0.21 eq_refl Hshort)
    as (n & w' & Hrun & Hb & _).
  exists n, w'. split; [ exact Hrun | ]. split; [ exact Hb | ].
  assert (Hev : update_state 0.15 0.3 w =
                Ok (1%nat, mkWorld (clock_of [12.4]) 1 []
                             (set_state_change_time 12.4 (eyes_closed_since 10.5))))
    by (vm_compute; reflexivity).
  rewrite Hev in Hrun. injection Hrun as _ <-. reflexivity.
Defined.

(** X18: DANGER is left by the ordinary hold rule and nothing else: the
    candidate is never DANGER, so in DANGER the reference instant is never
    refreshed, and the first frame outside the emergency branch read more
    than 1.0 s after it moves the state to the candidate; a frame read
    earlier leaves DANGER standing. *)
Theorem danger_exit (w : World) (ear mar thr : Q) :
  ear_threshold (self w) = Some thr -> state (self w) = DANGER ->
  let now := now_of w in
  let m1 := trackers (Qltb ear thr) now (self w) in
  let blink_rate := length (blink_timestamps m1) in
  microsleep_test now m1 = false ->
  exists w',
    update_state ear mar w = Ok (blink_rate, w') /\
    (STATE_HOLD_TIME < now - state_change_time (self w) ->
     state (self w') = candidate_state blink_rate mar /\
     state (self w') <> DANGER /\ state_change_time (self w') = now) /\
    (now - state_change_time (self w) <= STATE_HOLD_TIME ->
     state (self w') = DANGER /\
     state_change_time (self w') = state_change_time (self w)).
Proof.
  intros Hthr Hst now m1 blink_rate Ht.
  eexists. split; [ apply (@update_state_calm w ear mar thr Hthr Ht) | ].
  fold now. fold m1. fold blink_rate. cbn [self with_self tick].
  assert (Hs1 : state m1 = DANGER) by (unfold m1; rewrite trackers_state; exact Hst).
  assert (Hc1 : state_change_time m1 = state_change_time (self w))
    by apply trackers_state_change_time.
  assert (Hne : candidate_state blink_rate mar <> state m1).
  { rewrite Hs1.
    destruct (candidate_state_cases blink_rate mar) as [-> | ->]; discriminate. }
  destruct (@hold_or_commit_differs (candidate_state blink_rate mar) now m1 Hne)
    as [Hcommit Hkeep].
  rewrite <- Hc1. split; intros H.
  - rewrite (Hcommit H). cbn. split; [ reflexivity | ].
    split; [ rewrite <- Hs1; exact Hne | reflexivity ].
  - rewrite (Hkeep H). split; [ exact Hs1 | reflexivity ].
Qed.

(** In DANGER since a microsleep, reference instant 10: the eyes open
    again at 12.6, and the state is NORMAL on that frame. *)
Lemma danger_exit_witness :
  let m := mkMonitor [10.5] true (Some 10.5) None DANGER 10 (Some 0.21) [0.3] 4 12.5 in
  let w := mkWorld (clock_of [12.6]) 0 [12.5] m in
  exists w',
    update_state 0.3 0.3 w = Ok (1%nat, w') /\ state (self w') = NORMAL.
Proof.
  intros m w.
  destruct (@danger_exit w 0.3 0.3 0.21 eq_refl eq_refl eq_refl)
    as (w' & Hrun & Hleave & _).
  exists w'. split; [ exact Hrun | ].
  apply Hleave. vm_compute. reflexivity.
Defined.

(** ** Latch and closure episode *)

Lemma blink_and_eye_closure_keeps_latched closed now m :
  latched m -> latched (blink_and_eye_closure closed now m).
Proof.
  unfold latched, blink_and_eye_closure. intros Hm.
  destruct closed; [ destruct (eyes_closed_prev m) eqn:Hl | ]; cbn.
  - rewrite Hl. exact Hm.
  - split; [ discriminate | reflexivity ].
  - split; [ discriminate | intros H; contradiction H; reflexivity ].
Qed.

Lemma update_state_latched_inv w ear mar n w' :
  latched (self w) -> update_state ear mar w = Ok (n, w') -> latched (self w').
Proof.
  intros Hm.
  destruct (ear_threshold (self w)) as [thr | ] eqn:Hthr.
  - rewrite (update_state_eq _ _ _ Hthr). cbv zeta.
    pose proof (blink_and_eye_closure_keeps_latched (Qltb ear thr) (now_of w) Hm)
      as Hb.
    unfold latched in *.
    destruct (microsleep_test _ _).
    + destruct (trigger_alarm_shape
                  (with_self (set_state DANGER
                     (trackers (Qltb ear thr) (now_of w) (self w))) (tick w)))
        as (bs & t & ->).
      intros H; injection H as _ <-. cbn. exact Hb.
    + intros H; injection H as _ <-. cbn [self with_self tick].
      match goal with |- context [hold_or_commit ?s ?t ?m] =>
        destruct (hold_or_commit_latch s t m) as [-> ->] end.
      cbn. exact Hb.
  - rewrite (update_state_unset _ _ _ Hthr). discriminate.
Qed.

Lemma main_loop_body_latched w f w' :
  latched (self w) -> main_loop_body f w = Ok (tt, w') -> latched (self w').
Proof.
  intros Hm. rewrite main_loop_body_eq. destruct f as [ | ear mar ].
  - destruct (handle_face_lost_total w)
      as (w1 & -> & _ & _ & _ & _ & _ & _ & Hl & Hs & _).
    intros H; injection H as <-. unfold latched in *. rewrite Hl, Hs. exact Hm.
  - cbv zeta. destruct (state_eqb _ _).
    + destruct (calibrate_total
                  (tick (with_self (set_face_lost_start None (self w)) w)) ear)
        as (w1 & -> & _ & _ & _ & _ & Hl & Hs & _).
      intros H; injection H as <-. unfold latched in *. rewrite Hl, Hs. exact Hm.
    + destruct (update_state ear mar _) as [[n w1] | e] eqn:Hup; [ | discriminate ].
      intros H; injection H as <-.
      apply update_state_latched_inv in Hup; [ exact Hup | exact Hm ].
Qed.

(** X19: The latch and the closure episode go together in every state the
    program reaches: the latch is set exactly when an episode start is
    recorded. *)
Theorem program_latched (clk : nat -> Q) (frames : list frame) (w : World) :
  program frames (boot clk) = Ok (tt, w) ->
  (eyes_closed_prev (self w) = true <-> eye_close_start (self w) <> None).
Proof.
  rewrite program_eq.
  assert (Hgen : forall frames w0 w1,
    latched (self w0) -> main_loop frames w0 = Ok (tt, w1) -> latched (self w1)).
  { clear. induction frames as [ | f rest IH ]; intros w0 w1 Hm.
    - intros H; injection H as <-. exact Hm.
    - rewrite main_loop_cons.
      destruct (main_loop_body f w0) as [[[] w2] | e] eqn:Hf; [ | discriminate ].
      apply IH. apply (@main_loop_body_latched w0 f w2 Hm Hf). }
  intros Hrun. apply (Hgen frames _ w) in Hrun; [ exact Hrun | ].
  split; [ discriminate | intros H; contradiction H; reflexivity ].
Qed.

Lemma program_latched_witness :
  let clk := clock_of [100; 100; 105; 105; 105; 106; 106.1] in
  exists w,
    program [Face 0.3 0.3; Face 0.1 0.3; Face 0.1 0.3] (boot clk) = Ok (tt, w) /\
    eyes_closed_prev (self w) = true /\ eye_close_start (self w) <> None.
Proof.
  intros clk. eexists.
  assert (Hrun : program [Face 0.3 0.3; Face 0.1 0.3; Face 0.1 0.3] (boot clk) =
                 Ok (tt, mkWorld clk 7 []
                           (mkMonitor [106] true (Some 106) None NORMAL 106.1
                              (Some (0.7 * (py_sum [0.3] / inject_Z 1))) [0.3]
                              100 0.0)))
    by (vm_compute; reflexivity).
  split; [ exact Hrun | ]. split; [ reflexivity | ].
  apply (proj1 (@program_latched clk _ _ Hrun)). reflexivity.
Defined.

(** ** A run of frames without a face *)

Lemma no_faces_run n : forall w since,
  face_lost_start (self w) = Some since ->
  exists w',
    main_loop (no_faces n) w = Ok (tt, w') /\
    face_lost_start (self w') = Some since /\
    (state (self w') = state (self w) \/ state (self w') = DANGER) /\
    ear_threshold (self w') = ear_threshold (self w) /\
    blink_timestamps (self w') = blink_timestamps (self w) /\
    eyes_closed_prev (self w') = eyes_closed_prev (self w) /\
    eye_close_start (self w') = eye_close_start (self w) /\
    state_change_time (self w') = state_change_time (self w).
Proof.
  induction n as [ | n IH ]; intros w since Hs.
  - exists w. repeat split; auto.
  - cbn [no_faces repeat]. fold (no_faces n).
    rewrite main_loop_cons, main_loop_body_eq.
    destruct (handle_face_lost_total w)
      as (w1 & -> & _ & _ & Hf & Hst & Ht & Hb & Hl & He & Hc & _).
    assert (Hs1 : face_lost_start (self w1) = Some since).
    { destruct Hf as [Hf | [Hf _]]; congruence. }
    destruct (IH w1 since Hs1)
      as (w' & Hrun & Hf' & Hst' & Ht' & Hb' & Hl' & He' & Hc').
    exists w'. split; [ exact Hrun | ]. split; [ exact Hf' | ].
    split.
    { destruct Hst' as [Hst' | Hst']; [ | right; exact Hst' ].
      destruct Hst as [Hst | Hst]; [ left | right ]; congruence. }
    repeat split; congruence.
Qed.

(** X20: Losing the face touches neither the closure tracking nor the blink
    timestamps nor the hold timer nor the threshold: after any number of
    frames without a face the loss episode still starts at the first of
    them, the state is the old one or DANGER, and everything else the
    state update works with is as the last frame with a face left it. *)
Theorem face_loss_run (n : nat) (w : World) :
  face_lost_start (self w) = None ->
  exists w',
    main_loop (no_faces (S n)) w = Ok (tt, w') /\
    face_lost_start (self w') = Some (now_of w) /\
    (state (self w') = state (self w) \/ state (self w') = DANGER) /\
    ear_threshold (self w') = ear_threshold (self w) /\
    blink_timestamps (self w') = blink_timestamps (self w) /\
    eyes_closed_prev (self w') = eyes_closed_prev (self w) /\
    eye_close_start (self w') = eye_close_start (self w) /\
    state_change_time (self w') = state_change_time (self w).
Proof.
  intros Hnone. cbn [no_faces repeat]. fold (no_faces n).
  rewrite main_loop_cons, main_loop_body_eq, handle_face_lost_eq, Hnone.
  destruct (@no_faces_run n
              (with_self (set_face_lost_start (Some (now_of w)) (self w)) (tick w))
              (now_of w) eq_refl)
    as (w' & Hrun & Hrest).
  exists w'. split; [ exact Hrun | exact Hrest ].
Qed.

(** Eyes closed since 10.5; the face is then lost for three frames: the
    closure episode is still the one of 10.5. *)
Lemma face_loss_run_witness :
  let w := mkWorld (clock_of [11; 12; 12.5]) 0 [] (eyes_closed_since 10.5) in
  exists w',
    main_loop (no_faces 3) w = Ok (tt, w') /\
    face_lost_start (self w') = Some 11 /\
    eye_close_start (self w') = Some 10.5.
Proof.
  intros w.
  destruct (@face_loss_run 2 w eq_refl)
    as (w' & Hrun & Hf & _ & _ & _ & _ & He & _).
  exists w'. split; [ exact Hrun | ]. split; [ exact Hf | exact He ].
Defined.

(** ** The pruning loop and the blink rate *)

Lemma popleft_old_length now ts :
  (length (popleft_old now ts) <= length ts)%nat.
Proof.
  destruct (popleft_old_suffix now ts) as (dropped & Hd).
  rewrite Hd at 2. rewrite length_app. lia.
Qed.

(** X21: The loop drops a prefix, all of it older than the window; what it
    keeps starts with a timestamp inside the window; running it again at
    the same instant changes nothing. *)
Theorem popleft_old_loop (now : Q) (ts : list Q) :
  (exists dropped,
      ts = dropped ++ popleft_old now ts /\
      Forall (fun t => BLINK_WINDOW < now - t) dropped) /\
  (forall t rest, popleft_old now ts = t :: rest -> now - t <= BLINK_WINDOW) /\
  popleft_old now (popleft_old now ts) = popleft_old now ts /\
  (length (popleft_old now ts) <= length ts)%nat.
Proof.
  induction ts as [ | t0 rest IH ].
  - split; [ exists []; split; [ reflexivity | constructor ] | ].
    split; [ discriminate | ]. split; [ reflexivity | apply Nat.le_refl ].
  - destruct IH as ((dropped & Hd & Hold) & Hhead & Hidem & Hlen).
    cbn [popleft_old]. destruct (Qgtb (now - t0) BLINK_WINDOW) eqn:H0.
    + split.
      { exists (t0 :: dropped). split; [ cbn; rewrite <- Hd; reflexivity | ].
        constructor; [ apply Qgtb_true; exact H0 | exact Hold ]. }
      split; [ exact Hhead | ]. split; [ exact Hidem | ].
      cbn [length]. lia.
    + split; [ exists []; split; [ reflexivity | constructor ] | ].
      split.
      { intros t r H; injection H as <- _. apply Qgtb_false. exact H0. }
      split; [ | apply Nat.le_refl ].
      cbn [popleft_old]. rewrite H0. reflexivity.
Qed.

Lemma popleft_old_snoc now l t :
  now - t <= BLINK_WINDOW ->
  popleft_old now (l ++ [t]) = popleft_old now l ++ [t].
Proof.
  intros Ht. induction l as [ | t0 rest IH ]; cbn [app popleft_old].
  - apply Qgtb_false in Ht. rewrite Ht. reflexivity.
  - destruct (Qgtb (now - t0) BLINK_WINDOW); [ exact IH | reflexivity ].
Qed.

(** X22: The blink rate of a calibrated update is the length of the deque it
    leaves; it exceeds the number of timestamps held before by at most
    one; and a blink onset is counted on its own frame: the rate is then
    at least 1 and the newest timestamp is the current instant. *)
Theorem blink_rate_bounds (w : World) (ear mar thr : Q) :
  ear_threshold (self w) = Some thr ->
  exists n w',
    update_state ear mar w = Ok (n, w') /\
    n = length (blink_timestamps (self w')) /\
    (n <= S (length (blink_timestamps (self w))))%nat /\
    (ear < thr -> eyes_closed_prev (self w) = false ->
     (1 <= n)%nat /\ last (blink_timestamps (self w')) 0 = now_of w) /\
    (thr <= ear \/ eyes_closed_prev (self w) = true ->
     (n <= length (blink_timestamps (self w)))%nat).
Proof.
  intros Hthr.
  set (now := now_of w).
  set (m0 := blink_and_eye_closure (Qltb ear thr) now (self w)).
  assert (Hrun : exists w',
    update_state ear mar w =
      Ok (length (popleft_old now (blink_timestamps m0)), w') /\
    blink_timestamps (self w') = popleft_old now (blink_timestamps m0)).
  { rewrite (update_state_eq _ _ _ Hthr). cbv zeta. fold now.
    destruct (microsleep_test _ _).
    - destruct (trigger_alarm_shape
                  (with_self (set_state DANGER
                     (trackers (Qltb ear thr) now (self w))) (tick w)))
        as (bs & t & ->).
      eexists. split; reflexivity.
    - eexists. split; [ reflexivity | ]. cbn [self with_self tick].
      rewrite hold_or_commit_blink_timestamps. reflexivity. }
  destruct Hrun as (w' & Hrun & Hts).
  eexists; exists w'. split; [ exact Hrun | ]. rewrite Hts.
  split; [ reflexivity | ].
  pose proof (popleft_old_length now (blink_timestamps m0)) as Hlen.
  assert (Hm0 : (length (blink_timestamps m0) <=
                 S (length (blink_timestamps (self w))))%nat).
  { unfold m0, blink_and_eye_closure.
    destruct (Qltb ear thr); [ destruct (negb _) | ]; cbn;
      rewrite ?length_app; cbn; lia. }
  split; [ lia | ]. split.
  - intros Hlt Hlatch.
    assert (Hon : blink_timestamps m0 = blink_timestamps (self w) ++ [now]).
    { unfold m0, blink_and_eye_closure.
      apply Qltb_true in Hlt. rewrite Hlt, Hlatch. reflexivity. }
    rewrite Hon, popleft_old_snoc.
    + rewrite length_app, last_last. cbn. split; [ lia | reflexivity ].
    + unfold BLINK_WINDOW. lra.
  - intros Hcalm.
    assert (Hsame : blink_timestamps m0 = blink_timestamps (self w)).
    { unfold m0, blink_and_eye_closure. destruct Hcalm as [Hopen | Hlatch].
      - assert (Hc : Qltb ear thr = false).
        { unfold Qltb. apply negb_false_iff. apply Qle_bool_iff. exact Hopen. }
        rewrite Hc. reflexivity.
      - rewrite Hlatch. destruct (Qltb ear thr); reflexivity. }
    rewrite Hsame in Hlen |- *. exact Hlen.
Qed.

(** An onset at 70 with three older blinks, one of them out of the
    window: rate 3. *)
Lemma blink_rate_bounds_witness :
  let m := mkMonitor [5; 30; 64.5] false None None NORMAL 69 (Some 0.21) [0.3] 0 0.0 in
  let w := mkWorld (clock_of [70]) 0 [] m in
  exists w',
    update_state 0.1 0.3 w = Ok (3%nat, w') /\
    last (blink_timestamps (self w')) 0 = 70.
Proof.
  intros m w.
  destruct (@blink_rate_bounds w 0.1 0.3 0.21 eq_refl)
    as (n & w' & Hrun & _ & _ & Hon & _).
  assert (Hlt : 0.1 < 0.21) by (vm_compute; reflexivity).
  destruct (Hon Hlt eq_refl) as [_ Hlast].
  assert (Hev : exists w0, update_state 0.1 0.3 w = Ok (3%nat, w0))
    by (eexists; vm_compute; reflexivity).
  destruct Hev as (w0 & Hev). rewrite Hev in Hrun. injection Hrun as <- ->.
  exists w'. split; [ exact Hev | exact Hlast ].
Defined.

(** ** The microsleep override along program runs *)

(** What the clock must not do for a recorded closure start to be 0.0:
    read 0.0 at or after a reading that completes calibration. *)
Lemma readings_after_calibration_nonzero clk :
  (forall n, ~ clk n == 0) \/ (monotone clk /\ - CALIBRATION_TIME < clk 1%nat) ->
  forall k n, CALIBRATION_TIME <= clk k - clk 1%nat -> (k <= n)%nat -> ~ clk n == 0.
Proof.
  intros [Hnz | [Hmono Hstart]] k n Hk Hkn; [ apply Hnz | ].
  specialize (Hmono k n Hkn). unfold CALIBRATION_TIME in *.
  intros Hz. rewrite Hz in Hmono. lra.
Qed.

Lemma update_state_eye_close_start w ear mar thr n w' :
  ear_threshold (self w) = Some thr ->
  update_state ear mar w = Ok (n, w') ->
  eye_close_start (self w') =
  eye_close_start (trackers (Qltb ear thr) (now_of w) (self w)).
Proof.
  intros Hthr. rewrite (update_state_eq _ _ _ Hthr). cbv zeta.
  destruct (microsleep_test _ _).
  - destruct (trigger_alarm_shape
                (with_self (set_state DANGER
                   (trackers (Qltb ear thr) (now_of w) (self w))) (tick w)))
      as (bs & t & ->).
    intros H; injection H as _ <-. reflexivity.
  - intros H; injection H as _ <-. cbn [self with_self tick].
    match goal with |- context [hold_or_commit ?s ?t ?m] =>
      destruct (hold_or_commit_latch s t m) as [_ ->] end.
    reflexivity.
Qed.

Lemma main_loop_body_start_nonzero clk w f w' :
  (forall k n, CALIBRATION_TIME <= clk k - clk 1%nat -> (k <= n)%nat -> ~ clk n == 0) ->
  clock w = clk -> calibration_start (self w) = clk 1%nat ->
  (forall since, eye_close_start (self w) = Some since -> ~ since == 0) ->
  (ear_threshold (self w) <> None ->
   exists k, (k < ticks w)%nat /\ CALIBRATION_TIME <= clk k - clk 1%nat) ->
  main_loop_body f w = Ok (tt, w') ->
  clock w' = clk /\ calibration_start (self w') = clk 1%nat /\
  (forall since, eye_close_start (self w') = Some since -> ~ since == 0) /\
  (ear_threshold (self w') <> None ->
   exists k, (k < ticks w')%nat /\ CALIBRATION_TIME <= clk k - clk 1%nat).
Proof.
  intros Hclk Hc Hcs Hstart Hcal. rewrite main_loop_body_eq.
  destruct f as [ | ear mar ].
  - destruct (handle_face_lost_total w)
      as (w1 & -> & Hc1 & Hk1 & _ & _ & Ht1 & _ & _ & He1 & _ & _ & Hs1).
    intros H; injection H as <-.
    split; [ congruence | ]. split; [ congruence | ].
    split; [ rewrite He1; exact Hstart | ].
    rewrite Ht1. intros Hset. destruct (Hcal Hset) as (k & Hk & Hdue).
    exists k. split; [ lia | exact Hdue ].
  - cbv zeta. destruct (state_eqb (state (self w)) CALIBRATING) eqn:Hst.
    + rewrite calibrate_eq. cbv zeta.
      cbn [self tick with_self calibration_start set_face_lost_start
           calibration_values].
      unfold now_of. cbn [clock ticks tick with_self].
      destruct (Qgeb (clock w (S (ticks w)) - calibration_start (self w))
                     CALIBRATION_TIME) eqn:Hdue;
        intros H; injection H as <-; cbn.
      * split; [ exact Hc | ]. split; [ exact Hcs | ].
        split; [ exact Hstart | ].
        intros _. exists (S (ticks w)). split; [ lia | ].
        apply Qgeb_true in Hdue. rewrite Hc, Hcs in Hdue. exact Hdue.
      * split; [ exact Hc | ]. split; [ exact Hcs | ].
        split; [ exact Hstart | ].
        intros Hset. destruct (Hcal Hset) as (k & Hk & Hd).
        exists k. split; [ lia | exact Hd ].
    + destruct (update_state ear mar _) as [[n w1] | e] eqn:Hup; [ | discriminate ].
      intros H; injection H as <-.
      destruct (ear_threshold (self w)) as [thr | ] eqn:Hthr.
      * destruct (update_state_clock _ _ _ Hup) as [Hc1 Hk1].
        cbn [clock ticks with_self] in Hc1, Hk1.
        destruct (update_state_calibration_fields _ _ _ Hup) as [_ Hcs1].
        cbn [self with_self calibration_start set_face_lost_start] in Hcs1.
        destruct (@update_state_calibrated
                    (with_self (set_face_lost_start None (self w)) w) ear mar thr)
          as (n' & w2 & Hup' & _ & Ht2 & _); [ exact Hthr | | ].
        { apply state_eqb_neq. exact Hst. }
        rewrite Hup in Hup'. injection Hup' as _ <-.
        destruct (Hcal ltac:(discriminate)) as (k & Hk & Hd).
        split; [ congruence | ]. split; [ congruence | ].
        split.
        -- intros since Hs.
           rewrite (@update_state_eye_close_start
                      (with_self (set_face_lost_start None (self w)) w)
                      ear mar thr n w1 Hthr Hup) in Hs.
           apply trackers_eye_close_start in Hs.
           destruct Hs as [-> | Hs]; [ | apply Hstart; exact Hs ].
           unfold now_of. cbn [clock ticks with_self]. rewrite Hc.
           apply (Hclk k (ticks w) Hd). lia.
        -- intros _. exists k. split; [ lia | exact Hd ].
      * rewrite update_state_unset in Hup by exact Hthr. discriminate.
Qed.

Lemma main_loop_start_nonzero clk frames : forall w w',
  (forall k n, CALIBRATION_TIME <= clk k - clk 1%nat -> (k <= n)%nat -> ~ clk n == 0) ->
  clock w = clk -> calibration_start (self w) = clk 1%nat ->
  (forall since, eye_close_start (self w) = Some since -> ~ since == 0) ->
  (ear_threshold (self w) <> None ->
   exists k, (k < ticks w)%nat /\ CALIBRATION_TIME <= clk k - clk 1%nat) ->
  main_loop frames w = Ok (tt, w') ->
  clock w' = clk /\
  (forall since, eye_close_start (self w') = Some since -> ~ since == 0) /\
  (ear_threshold (self w') <> None ->
   exists k, (k < ticks w')%nat /\ CALIBRATION_TIME <= clk k - clk 1%nat).
Proof.
  induction frames as [ | f rest IH ]; intros w w' Hclk Hc Hcs Hstart Hcal.
  - intros H; injection H as <-. auto.
  - rewrite main_loop_cons.
    destruct (main_loop_body f w) as [[[] w1] | e] eqn:Hf; [ | discriminate ].
    destruct (@main_loop_body_start_nonzero clk w f w1 Hclk Hc Hcs Hstart Hcal Hf)
      as (Hc1 & Hcs1 & Hstart1 & Hcal1).
    apply IH; assumption.
Qed.

(** C1: in every state the program reaches, under a clock that never
    reads 0.0 or that never runs backwards and starts calibration after
    -5.0, a frame with a face on which the closure episode is active and
    at least 2.0 s old is answered by [update_state] with DANGER on that
    very frame: the hold timer is neither consulted nor reset, the alarm
    is requested (and beeps when the cooldown allows), and the call
    returns the blink rate at once. *)
Theorem microsleep_override_on_run
    (clk : nat -> Q) (frames : list frame) (w : World) (ear mar thr since : Q) :
  (forall n, ~ clk n == 0) \/ (monotone clk /\ - CALIBRATION_TIME < clk 1%nat) ->
  program frames (boot clk) = Ok (tt, w) ->
  ear_threshold (self w) = Some thr ->
  let w1 := with_self (set_face_lost_start None (self w)) w in
  let now := now_of w in
  let m1 := trackers (Qltb ear thr) now (self w1) in
  eye_close_start m1 = Some since ->
  MICROSLEEP_TIME <= now - since ->
  exists w',
    update_state ear mar w1 = Ok (length (blink_timestamps m1), w') /\
    main_loop_body (Face ear mar) w = Ok (tt, w') /\
    trigger_alarm (with_self (set_state DANGER m1) (tick w1)) = Ok (tt, w') /\
    state (self w') = DANGER /\
    state_change_time (self w') = state_change_time (self w) /\
    (ALARM_COOLDOWN < clock w (S (ticks w)) - last_alarm_time (self w) ->
     beeps w' = beeps w ++ [clock w (S (ticks w))]).
Proof.
  intros Hclock Hrun Hthr w1 now m1 Hs Hdur.
  pose proof (readings_after_calibration_nonzero Hclock) as Hclk.
  rewrite program_eq in Hrun.
  assert (Hst : state (self w) <> CALIBRATING).
  { intros Hc. apply main_loop_not_yet in Hrun.
    - rewrite (Hrun Hc) in Hthr. discriminate.
    - intros _. reflexivity. }
  apply (@main_loop_start_nonzero clk frames _ w Hclk) in Hrun;
    [ | reflexivity | reflexivity | discriminate
      | intros H; contradiction H; reflexivity ].
  destruct Hrun as (Hc & Hstart & Hcal).
  assert (Hnz : ~ since == 0).
  { apply trackers_eye_close_start in Hs.
    destruct Hs as [-> | Hs]; [ | apply Hstart; exact Hs ].
    destruct (Hcal ltac:(rewrite Hthr; discriminate)) as (k & Hk & Hd).
    unfold now, now_of. rewrite Hc. apply (Hclk k (ticks w) Hd). lia. }
  assert (Hthr1 : ear_threshold (self w1) = Some thr) by exact Hthr.
  destruct (@microsleep_override w1 ear mar thr since Hthr1 Hs Hnz Hdur)
    as (w' & Htr & Hup & Hdanger & Hsct).
  exists w'. split; [ exact Hup | ].
  split.
  { rewrite main_loop_body_eq. cbv zeta. apply state_eqb_neq in Hst.
    rewrite Hst. fold w1. rewrite Hup. reflexivity. }
  split; [ exact Htr | ]. split; [ exact Hdanger | ].
  split; [ exact Hsct | ].
  intros Hgap.
  assert (Hcond : Qgtb (now_of (with_self (set_state DANGER m1) (tick w1)) -
                        last_alarm_time (self (with_self (set_state DANGER m1) (tick w1))))
                       ALARM_COOLDOWN = true).
  { apply Qgtb_true. unfold now_of.
    cbn [clock ticks beeps self with_self tick set_state last_alarm_time w1].
    fold (last_alarm_time m1). unfold m1. rewrite trackers_last_alarm. exact Hgap. }
  pose proof (trigger_alarm_eq (with_self (set_state DANGER m1) (tick w1))) as Heq.
  rewrite Hcond in Heq.
  match type of Heq with
  | _ = ?r => assert (Hw : Ok (tt, w') = r) by (rewrite <- Htr; exact Heq)
  end.
  injection Hw as ->. reflexivity.
Qed.

(** A clock that starts at 100 and advances by one second at every
    reading: calibration completes on the third frame, the eyes close on
    the fourth (reading 109), and the frame read at 111 finds the closure
    2.0 s old: DANGER, and a beep at the next reading. *)
Lemma microsleep_override_on_run_witness :
  let clk := steady_clock 100 1 in
  exists w w',
    program [Face 0.3 0.3; Face 0.3 0.3; Face 0.3 0.3; Face 0.15 0.3; Face 0.15 0.3]
      (boot clk) = Ok (tt, w) /\
    state (self w) = NORMAL /\
    main_loop_body (Face 0.15 0.3) w = Ok (tt, w') /\
    state (self w') = DANGER /\ beeps w' = [clk 12%nat].
Proof.
  intros clk.
  assert (Hclock : (forall n, ~ clk n == 0) \/
                   (monotone clk /\ - CALIBRATION_TIME < clk 1%nat)).
  { left. intros n Hz. unfold clk, steady_clock in Hz.
    assert (H0 : 0 <= inject_Z (Z.of_nat n))
      by (change 0 with (inject_Z 0); rewrite <- Zle_Qle; lia).
    lra. }
  destruct (program [Face 0.3 0.3; Face 0.3 0.3; Face 0.3 0.3; Face 0.15 0.3;
                     Face 0.15 0.3] (boot clk)) as [[[] w] | e] eqn:Hrun;
    [ | vm_compute in Hrun; discriminate Hrun ].
  assert (Hthr : ear_threshold (self w) =
                 Some (0.7 * (py_sum [0.3; 0.3; 0.3] / inject_Z 3))).
  { vm_compute in Hrun. injection Hrun as <-. reflexivity. }
  assert (Hnormal : state (self w) = NORMAL).
  { vm_compute in Hrun. injection Hrun as <-. reflexivity. }
  assert (Hs : eye_close_start
                 (trackers (Qltb 0.15 (0.7 * (py_sum [0.3; 0.3; 0.3] / inject_Z 3)))
                    (now_of w)
                    (self (with_self (set_face_lost_start None (self w)) w))) =
               Some (clk 9%nat)).
  { vm_compute in Hrun. injection Hrun as <-. vm_compute. reflexivity. }
  assert (Hdur : MICROSLEEP_TIME <= now_of w - clk 9%nat).
  { vm_compute in Hrun. injection Hrun as <-. vm_compute. discriminate. }
  destruct (@microsleep_override_on_run clk _ w 0.15 0.3 _ (clk 9%nat)
              Hclock Hrun Hthr Hs Hdur)
    as (w' & _ & Hbody & _ & Hdanger & _ & Hbeep).
  exists w, w'. split; [ reflexivity | ]. split; [ exact Hnormal | ].
  split; [ exact Hbody | ]. split; [ exact Hdanger | ].
  rewrite Hbeep.
  - vm_compute in Hrun. injection Hrun as <-. reflexivity.
  - vm_compute in Hrun. injection Hrun as <-. vm_compute. reflexivity.
Defined.
